(** * rawgl: startup layer ([main.cpp])

    A shallow embedding of the command-line front end of the Another World
    interpreter: the scaler and geometry parsers, the choice of the
    rendering backend from the detected data files, the construction of
    the backend and the order in which [main] drives and releases its
    collaborators.

    C strings are kept as the bytes of the buffer that holds them: the
    string stops at the first NUL byte, or at the end of the list when
    the list holds no NUL.  The engine, the renderers and the SDL stub
    are opaque: a call into one of them is recorded as an event. *)

From stdpp Require Import base list strings.
From Stdlib Require Import ZArith Lia Ascii.
From Stdlib Require String.

Local Open Scope Z_scope.

(** ** The C library functions [main.cpp] calls *)

Module CLib.

Definition NUL : ascii := "000"%char.

Definition code (c : ascii) : Z := Z.of_nat (nat_of_ascii c).

(** The string a buffer holds: its bytes up to the first NUL. *)
Fixpoint c_str (b : list ascii) : list ascii :=
  match b with
  | [] => []
  | c :: t => if Ascii.eqb c NUL then [] else c :: c_str t
  end.

(** [strchr s c]: offset of the first [c] in the string, when there is one.
    The terminator itself is found when [c] is NUL. *)
Fixpoint strchr (s : list ascii) (c : ascii) : option nat :=
  match s with
  | [] => if Ascii.eqb c NUL then Some 0%nat else None
  | x :: t =>
      if Ascii.eqb x c then Some 0%nat
      else if Ascii.eqb x NUL then None
      else S <$> strchr t c
  end.

(** The [n] bytes [strncpy] writes: the characters of [src] up to its
    terminator, then NUL padding; no terminator when [src] has [n]
    characters or more. *)
Fixpoint strncpy_bytes (src : list ascii) (n : nat) {struct n} : list ascii :=
  match n with
  | O => []
  | S n' =>
      match src with
      | [] => replicate n NUL
      | c :: t =>
          if Ascii.eqb c NUL then replicate n NUL
          else c :: strncpy_bytes t n'
      end
  end.

Definition strncpy (dst src : list ascii) (n : nat) : list ascii :=
  strncpy_bytes src n ++ drop n dst.

(** [strcmp]: difference of the first two bytes that differ. *)
Fixpoint strcmp (a b : list ascii) : Z :=
  match a, b with
  | [], [] => 0
  | [], y :: _ => 0 - code y
  | x :: _, [] => code x
  | x :: a', y :: b' =>
      if Ascii.eqb x y
      then (if Ascii.eqb x NUL then 0 else strcmp a' b')
      else code x - code y
  end.

Definition isspace (c : ascii) : bool :=
  (code c =? 32) || ((9 <=? code c) && (code c <=? 13)).

Definition isdigit (c : ascii) : bool :=
  (48 <=? code c) && (code c <=? 57).

Fixpoint skip_space (s : list ascii) : list ascii :=
  match s with
  | c :: t => if isspace c then skip_space t else s
  | [] => []
  end.

(** Longest prefix of decimal digits, and what follows it. *)
Fixpoint span_digits (s : list ascii) : list ascii * list ascii :=
  match s with
  | c :: t =>
      if isdigit c
      then let '(ds, rest) := span_digits t in (c :: ds, rest)
      else ([], s)
  | [] => ([], [])
  end.

Definition decimal (ds : list ascii) : Z :=
  fold_left (fun acc c => acc * 10 + (code c - 48)) ds 0.

Definition LONG_MAX : Z := 2 ^ 63 - 1.
Definition LONG_MIN : Z := - 2 ^ 63.

Definition clamp_long (v : Z) : Z :=
  if v <? LONG_MIN then LONG_MIN
  else if LONG_MAX <? v then LONG_MAX
  else v.

(** Conversion of a [long] to [int]: the low 32 bits, signed. *)
Definition to_int (v : Z) : Z :=
  (v + 2 ^ 31) mod 2 ^ 32 - 2 ^ 31.

(** A decimal integer as [strtol] and the [%d] conversion read it: white
    space, an optional sign, at least one digit.  [None] when no digit
    is found; otherwise the value, saturated to [long], and the rest of
    the input. *)
Definition scan_decimal (s : list ascii) : option (Z * list ascii) :=
  let s1 := skip_space s in
  let '(neg, s2) :=
    match s1 with
    | c :: t =>
        if Ascii.eqb c "-"%char then (true, t)
        else if Ascii.eqb c "+"%char then (false, t)
        else (false, s1)
    | [] => (false, s1)
    end in
  let '(ds, rest) := span_digits s2 in
  match ds with
  | [] => None
  | _ :: _ =>
      Some (clamp_long (if neg then - decimal ds else decimal ds), rest)
  end.

(** [atoi s] is [(int) strtol (s, NULL, 10)]: 0 when nothing converts. *)
Definition atoi (s : list ascii) : Z :=
  match scan_decimal s with
  | Some (v, _) => to_int v
  | None => 0
  end.

(** The directives of a [scanf] format, as far as [main.cpp] uses them. *)
Inductive directive : Type :=
  | Conv_d                (* %d *)
  | Lit (c : ascii).      (* an ordinary character *)

(** [sscanf s fmt]: the values converted, in the order of the format;
    scanning stops at the first directive that does not match.  The
    caller stores the k-th value through its k-th pointer argument, and
    the pointers after the last conversion are not written to. *)
Fixpoint sscanf (s : list ascii) (fmt : list directive) : list Z :=
  match fmt with
  | [] => []
  | Conv_d :: fmt' =>
      match scan_decimal s with
      | Some (v, rest) => to_int v :: sscanf rest fmt'
      | None => []
      end
  | Lit c :: fmt' =>
      match s with
      | x :: rest =>
          if Ascii.eqb x NUL then []
          else if Ascii.eqb x c then sscanf rest fmt' else []
      | [] => []
      end
  end.

End CLib.

Export CLib.

Definition bytes (s : string) : list ascii := String.list_ascii_of_string s.

(** ** [parseScaler] *)

Record Scaler : Type := mkScaler {
  name : list ascii;      (* char name[32] *)
  factor : Z
}.

Definition NAME_SIZE : nat := 32.

(** The separator of a scaler argument. *)
Definition AT : ascii := "@"%char.

(** [parseScaler (name, s)].  The argument is cut at the separator
    ([*sep = 0]) before it is copied, so the copy stops there. *)
Definition parseScaler (arg : list ascii) (s : Scaler) : Scaler :=
  let sep := strchr arg AT in
  let s1 :=
    match sep with
    | Some i =>
        let arg' := <[i := NUL]> arg in
        let n1 := strncpy (name s) arg' (NAME_SIZE - 1)%nat in
        mkScaler (<[(NAME_SIZE - 1)%nat := NUL]> n1) (factor s)
    | None => s
    end in
  match sep with
  | Some i => mkScaler (name s1) (atoi (drop (S i) arg))
  | None => s1
  end.

(** ** Enumerations *)

Inductive Language : Type := LANG_FR | LANG_US | LANG_DE | LANG_ES | LANG_IT.

Inductive GraphicsType : Type :=
  GRAPHICS_ORIGINAL | GRAPHICS_SOFTWARE | GRAPHICS_GL.

Definition GraphicsType_eqb (a b : GraphicsType) : bool :=
  match a, b with
  | GRAPHICS_ORIGINAL, GRAPHICS_ORIGINAL
  | GRAPHICS_SOFTWARE, GRAPHICS_SOFTWARE
  | GRAPHICS_GL, GRAPHICS_GL => true
  | _, _ => false
  end.

(** Modelled from the spec: the declaration of [Resource::DataType]
    ([resource.h]) is not part of the sources at hand.  [main.cpp] names
    three of its enumerators; the spec calls them the modern editions and
    sets them against the legacy ones, which [DT_LEGACY] stands for, one
    per tag. *)
Inductive DataType : Type :=
  | DT_15TH_EDITION
  | DT_20TH_EDITION
  | DT_3DO
  | DT_LEGACY (tag : nat).

Definition is_DT_3DO (t : DataType) : bool :=
  match t with DT_3DO => true | _ => false end.

Inductive Mode : Type := WINDOWED | FULLSCREEN | FULLSCREEN_AR.

Record DisplayMode : Type := mkDisplayMode {
  mode : Mode;
  width : Z;
  height : Z;
  opengl : bool
}.

(** The rendering backend an instance belongs to. *)
Inductive Graphics : Type := GraphicsSoft | GraphicsGL.

(** ** Name tables *)

Definition LANGUAGES : list (list ascii * Language) :=
  [ (bytes "fr", LANG_FR); (bytes "us", LANG_US); (bytes "de", LANG_DE);
    (bytes "es", LANG_ES); (bytes "it", LANG_IT) ].

Definition GRAPHICS : list (list ascii * GraphicsType) :=
  [ (bytes "original", GRAPHICS_ORIGINAL);
    (bytes "software", GRAPHICS_SOFTWARE);
    (bytes "gl", GRAPHICS_GL) ].

(** The loops over the two tables: the value of the first entry whose
    name compares equal to the argument. *)
Fixpoint lookup_name {A : Type} (arg : list ascii)
    (table : list (list ascii * A)) : option A :=
  match table with
  | [] => None
  | (n, v) :: rest =>
      if strcmp arg n =? 0 then Some v else lookup_name arg rest
  end.

(** ** The process: globals and calls into the collaborators *)

Inductive event : Type :=
  | EvDebug (msg : string)
  | EvPrintUsage
  | EvSetDebugMask                 (* g_debugMask = DBG_INFO *)
  | EvNewEngine (dataPath : option (list ascii)) (part : Z)
  | EvGraphicsSoft_create
  | EvGraphicsGL_create
  | EvSystemStub_SDL_create
  | EvStubInit (lang : Language) (dm : DisplayMode)
  | EvSetSystemStub (graphics : option Graphics)
  | EvSetup (lang : Language) (graphicsType : GraphicsType)
      (scalerName : list ascii) (scalerFactor : Z)
  | EvRun
  | EvFinish
  | EvDeleteEngine
  | EvStubFini
  | EvDeleteStub.

Record World : Type := mkWorld {
  Graphics_is1991 : bool;
  Graphics_use565 : bool;
  Video_useEGA : bool;
  trace : list event      (* oldest call first *)
}.

(** The statics as [main.cpp] initialises them, before any call. *)
Definition world0 : World := mkWorld false false false [].

Definition M (A : Type) : Type := World -> A * World.

Definition ret {A : Type} (a : A) : M A := fun w => (a, w).

Definition bind {A B : Type} (m : M A) (k : A -> M B) : M B :=
  fun w => let '(a, w') := m w in k a w'.

Notation "x <- m ;; k" := (bind m (fun x => k))
  (at level 100, m at next level, right associativity).
Notation "m ;; k" := (bind m (fun _ => k))
  (at level 100, right associativity).

Definition emit (e : event) : M unit :=
  fun w => (tt, mkWorld (Graphics_is1991 w) (Graphics_use565 w)
                        (Video_useEGA w) (trace w ++ [e])).

Definition set_is1991 (b : bool) : M unit :=
  fun w => (tt, mkWorld b (Graphics_use565 w) (Video_useEGA w) (trace w)).

Definition set_use565 (b : bool) : M unit :=
  fun w => (tt, mkWorld (Graphics_is1991 w) b (Video_useEGA w) (trace w)).

Definition set_useEGA (b : bool) : M unit :=
  fun w => (tt, mkWorld (Graphics_is1991 w) (Graphics_use565 w) b (trace w)).

(** ** [createGraphics] and [getGraphicsType] *)

(** [USE_GL] is the build flag of the same name.  The case of
    [GRAPHICS_ORIGINAL] falls through into that of [GRAPHICS_SOFTWARE];
    without [USE_GL] the case of [GRAPHICS_GL] leaves the switch and the
    function returns the null pointer. *)
Definition createGraphics (USE_GL : bool) (type : GraphicsType)
    : M (option Graphics) :=
  match type with
  | GRAPHICS_ORIGINAL =>
      set_is1991 true ;;
      emit (EvDebug "Using software graphics") ;;
      emit EvGraphicsSoft_create ;;
      ret (Some GraphicsSoft)
  | GRAPHICS_SOFTWARE =>
      emit (EvDebug "Using software graphics") ;;
      emit EvGraphicsSoft_create ;;
      ret (Some GraphicsSoft)
  | GRAPHICS_GL =>
      emit (EvDebug "Using GL graphics") ;;
      if USE_GL
      then emit EvGraphicsGL_create ;; ret (Some GraphicsGL)
      else ret None
  end.

Definition getGraphicsType (type : DataType) : GraphicsType :=
  match type with
  | DT_15TH_EDITION
  | DT_20TH_EDITION
  | DT_3DO => GRAPHICS_GL
  | _ => GRAPHICS_ORIGINAL
  end.

(** ** The locals of [main] *)

Record Locals : Type := mkLocals {
  dataPath : option (list ascii);
  part : Z;
  lang : Language;
  graphicsType : GraphicsType;
  dm : DisplayMode;
  scaler : Scaler;
  defaultGraphics : bool
}.

Definition DEFAULT_WINDOW_W : Z := 640.
Definition DEFAULT_WINDOW_H : Z := 400.

(** What [getopt_long] hands back, one value per call, with [optarg] for
    the options that take an argument.  [Opt_other] is any value the
    switch has no case for (['?'] for an option that is not in the
    table). *)
Inductive getopt_result : Type :=
  | Opt_d (optarg : list ascii)     (* --datapath *)
  | Opt_l (optarg : list ascii)     (* --language *)
  | Opt_p (optarg : list ascii)     (* --part *)
  | Opt_r (optarg : list ascii)     (* --render *)
  | Opt_w (optarg : list ascii)     (* --window *)
  | Opt_f                           (* --fullscreen *)
  | Opt_a                           (* --fullscreen-ar *)
  | Opt_s (optarg : list ascii)     (* --scaler *)
  | Opt_e                           (* --ega-palette *)
  | Opt_h                           (* --help *)
  | Opt_other.

(** What a run of [main] is given from outside. *)
Record Env : Type := mkEnv {
  argc : Z;
  argv1 : list ascii;
  argv1_is_dir : bool;      (* stat (argv[1]) succeeds and finds a directory *)
  options : list getopt_result;   (* the calls to getopt_long, up to -1 *)
  scaler_stack : list ascii;      (* the bytes of scaler.name before main writes to it *)
  USE_GL : bool;
  dataType : DataType;      (* e->_res.getDataType () *)
  frames : nat              (* calls to e->run () before quit is seen *)
}.

Definition scaler0 (stack : list ascii) : Scaler :=
  mkScaler (<[0%nat := NUL]> stack) 1.

Definition locals0 (env : Env) : Locals :=
  let graphicsType0 := GRAPHICS_GL in
  mkLocals None 16001 LANG_FR graphicsType0
    (mkDisplayMode WINDOWED DEFAULT_WINDOW_W DEFAULT_WINDOW_H
       (GraphicsType_eqb graphicsType0 GRAPHICS_GL))
    (scaler0 (scaler_stack env))
    true.

Definition with_dataPath (p : list ascii) (l : Locals) : Locals :=
  mkLocals (Some p) (part l) (lang l) (graphicsType l) (dm l) (scaler l)
    (defaultGraphics l).

Definition with_part (p : Z) (l : Locals) : Locals :=
  mkLocals (dataPath l) p (lang l) (graphicsType l) (dm l) (scaler l)
    (defaultGraphics l).

Definition with_lang (g : Language) (l : Locals) : Locals :=
  mkLocals (dataPath l) (part l) g (graphicsType l) (dm l) (scaler l)
    (defaultGraphics l).

Definition with_graphicsType (g : GraphicsType) (l : Locals) : Locals :=
  mkLocals (dataPath l) (part l) (lang l) g (dm l) (scaler l)
    (defaultGraphics l).

Definition with_dm (d : DisplayMode) (l : Locals) : Locals :=
  mkLocals (dataPath l) (part l) (lang l) (graphicsType l) d (scaler l)
    (defaultGraphics l).

Definition with_scaler (s : Scaler) (l : Locals) : Locals :=
  mkLocals (dataPath l) (part l) (lang l) (graphicsType l) (dm l) s
    (defaultGraphics l).

Definition with_defaultGraphics (b : bool) (l : Locals) : Locals :=
  mkLocals (dataPath l) (part l) (lang l) (graphicsType l) (dm l) (scaler l) b.

Definition with_mode (m : Mode) (d : DisplayMode) : DisplayMode :=
  mkDisplayMode m (width d) (height d) (opengl d).

Definition with_width (v : Z) (d : DisplayMode) : DisplayMode :=
  mkDisplayMode (mode d) v (height d) (opengl d).

Definition with_height (v : Z) (d : DisplayMode) : DisplayMode :=
  mkDisplayMode (mode d) (width d) v (opengl d).

Definition with_opengl (b : bool) (d : DisplayMode) : DisplayMode :=
  mkDisplayMode (mode d) (width d) (height d) b.

(** The format ["%dx%d"]. *)
Definition WxH : list directive := [Conv_d; Lit "x"%char; Conv_d].

(** [sscanf (optarg, "%dx%d", &dm.width, &dm.height)]; the count that
    [sscanf] returns is not looked at. *)
Definition scan_window (optarg : list ascii) (d : DisplayMode) : DisplayMode :=
  match sscanf optarg WxH with
  | [] => d
  | [w] => with_width w d
  | w :: h :: _ => with_height h (with_width w d)
  end.

(** One turn of the option loop; [None] when [main] prints the usage and
    returns. *)
Definition handle_option (o : getopt_result) (l : Locals) : M (option Locals) :=
  match o with
  | Opt_d optarg => ret (Some (with_dataPath optarg l))
  | Opt_l optarg =>
      match lookup_name optarg LANGUAGES with
      | Some g => ret (Some (with_lang g l))
      | None => ret (Some l)
      end
  | Opt_p optarg => ret (Some (with_part (atoi optarg) l))
  | Opt_r optarg =>
      match lookup_name optarg GRAPHICS with
      | Some g =>
          ret (Some (with_defaultGraphics false
                       (with_dm (with_opengl (GraphicsType_eqb g GRAPHICS_GL) (dm l))
                          (with_graphicsType g l))))
      | None => ret (Some l)
      end
  | Opt_w optarg => ret (Some (with_dm (scan_window optarg (dm l)) l))
  | Opt_f => ret (Some (with_dm (with_mode FULLSCREEN (dm l)) l))
  | Opt_a => ret (Some (with_dm (with_mode FULLSCREEN_AR (dm l)) l))
  | Opt_s optarg => ret (Some (with_scaler (parseScaler optarg (scaler l)) l))
  | Opt_e => set_useEGA true ;; ret (Some l)
  | Opt_h | Opt_other => emit EvPrintUsage ;; ret None
  end.

Fixpoint option_loop (opts : list getopt_result) (l : Locals)
    : M (option Locals) :=
  match opts with
  | [] => ret (Some l)
  | o :: rest =>
      r <- handle_option o l ;;
      match r with
      | Some l' => option_loop rest l'
      | None => ret None
      end
  end.

(** Lines 105 to 190: the defaults, the lone directory argument and the
    option loop. *)
Definition parse_options (env : Env) : M (option Locals) :=
  let l0 := locals0 env in
  let l1 :=
    if (argc env =? 2) && argv1_is_dir env
    then with_dataPath (argv1 env) l0
    else l0 in
  option_loop (options env) l1.

(** The renderer the command line asked for, when it named one. *)
Definition requestedBackend (l : Locals) : option GraphicsType :=
  if defaultGraphics l then None else Some (graphicsType l).

(** Lines 193 to 201, with the engine's data type at hand. *)
Definition resolve (dt : DataType) (l : Locals) : M Locals :=
  let l1 :=
    if defaultGraphics l
    then
      let g := getGraphicsType dt in
      with_dm (with_opengl (GraphicsType_eqb g GRAPHICS_GL) (dm l))
        (with_graphicsType g l)
    else l in
  if negb (GraphicsType_eqb (graphicsType l1) GRAPHICS_GL) && is_DT_3DO dt
  then set_use565 true ;; ret (with_graphicsType GRAPHICS_SOFTWARE l1)
  else ret l1.

(** [main] up to the resolved renderer; [None] when it has returned from
    the option loop. *)
Definition startup (env : Env) : M (option Locals) :=
  r <- parse_options env ;;
  match r with
  | None => ret None
  | Some l =>
      emit EvSetDebugMask ;;
      emit (EvNewEngine (dataPath l) (part l)) ;;
      l' <- resolve (dataType env) l ;;
      ret (Some l')
  end.

Fixpoint run_loop (n : nat) : M unit :=
  match n with
  | O => ret tt
  | S n' => emit EvRun ;; run_loop n'
  end.

(** The calls that give the engine and the stub back. *)
Definition teardown : M unit :=
  emit EvFinish ;;
  emit EvDeleteEngine ;;
  emit EvStubFini ;;
  emit EvDeleteStub.

(** Lines 202 to 213. *)
Definition play (env : Env) (l : Locals) : M unit :=
  graphics <- createGraphics (USE_GL env) (graphicsType l) ;;
  emit EvSystemStub_SDL_create ;;
  emit (EvStubInit (lang l) (dm l)) ;;
  emit (EvSetSystemStub graphics) ;;
  emit (EvSetup (lang l) (graphicsType l) (c_str (name (scaler l)))
          (factor (scaler l))) ;;
  run_loop (frames env) ;;
  teardown.

(** [main]: its return value and what it leaves behind, for a run whose
    loop ends. *)
Definition main (env : Env) : M Z :=
  r <- startup env ;;
  match r with
  | None => ret 0
  | Some l => play env l ;; ret 0
  end.

(** ** Reading a trace *)

Fixpoint find_index (p : event -> bool) (tr : list event) : option nat :=
  match tr with
  | [] => None
  | e :: rest => if p e then Some 0%nat else S <$> find_index p rest
  end.

(** Some call in [p] is made, some call in [q] is made, and the first
    of [p] comes before the first of [q]. *)
Definition happens_before (p q : event -> bool) (tr : list event) : bool :=
  match find_index p tr, find_index q tr with
  | Some i, Some j => (i <? j)%nat
  | _, _ => false
  end.

Definition is_engine_release (e : event) : bool :=
  match e with EvDeleteEngine => true | _ => false end.

Definition is_stub_release (e : event) : bool :=
  match e with EvStubFini | EvDeleteStub => true | _ => false end.

(** A command line, for the examples. *)
Definition env_of (opts : list getopt_result) (dt : DataType) : Env :=
  mkEnv 3 [] false opts (replicate 32 "x"%char) true dt 2.

(** The GL flag of the display mode agrees with the renderer. *)
Definition gl_consistent (l : Locals) : Prop :=
  opengl (dm l) = GraphicsType_eqb (graphicsType l) GRAPHICS_GL.

(** The part of the world that the option loop does not write to. *)
Definition same_renderer_state (w w' : World) : Prop :=
  Graphics_is1991 w' = Graphics_is1991 w /\
  Graphics_use565 w' = Graphics_use565 w /\
  trace w' = trace w.

Definition is_release (e : event) : bool :=
  is_engine_release e || is_stub_release e.

(** The values of [getopt_long] on which [main] prints the usage. *)
Definition is_usage (o : getopt_result) : bool :=
  match o with Opt_h | Opt_other => true | _ => false end.

Definition is_mode_flag (o : getopt_result) : bool :=
  match o with Opt_f | Opt_a => true | _ => false end.

Definition is_Opt_d (o : getopt_result) : bool :=
  match o with Opt_d _ => true | _ => false end.

Definition is_Opt_e (o : getopt_result) : bool :=
  match o with Opt_e => true | _ => false end.

Definition is_Opt_s (o : getopt_result) : bool :=
  match o with Opt_s _ => true | _ => false end.

(** The data path [main] starts the option loop with. *)
Definition dataPath0 (env : Env) : option (list ascii) :=
  if (argc env =? 2) && argv1_is_dir env then Some (argv1 env) else None.

(** The calls [createGraphics] makes and the instance it returns. *)
Definition create_calls (USE_GL : bool) (g : GraphicsType) : list event :=
  match g with
  | GRAPHICS_ORIGINAL | GRAPHICS_SOFTWARE =>
      [EvDebug "Using software graphics"; EvGraphicsSoft_create]
  | GRAPHICS_GL =>
      EvDebug "Using GL graphics" :: (if USE_GL then [EvGraphicsGL_create] else [])
  end.

Definition create_result (USE_GL : bool) (g : GraphicsType) : option Graphics :=
  match g with
  | GRAPHICS_ORIGINAL | GRAPHICS_SOFTWARE => Some GraphicsSoft
  | GRAPHICS_GL => if USE_GL then Some GraphicsGL else None
  end.

(** The text does not go on with a digit. *)
Definition stops (rest : list ascii) : Prop :=
  match rest with [] => True | c :: _ => isdigit c = false end.

(** [--render] with one of the names of the table. *)
Definition names_renderer (o : getopt_result) : Prop :=
  match o with
  | Opt_r b => exists n g, (n, g) ∈ GRAPHICS /\ c_str b = n
  | _ => False
  end.

(** * Properties *)

(** ** C strings *)

Section CStrings.

Implicit Types (s pre post dst : list ascii) (c : ascii) (n : nat).

Lemma c_str_no_NUL s : NUL ∉ c_str s.
Proof.
  induction s as [|x t IH]; simpl.
  - apply not_elem_of_nil.
  - destruct (Ascii.eqb x NUL) eqn:E.
    + apply not_elem_of_nil.
    + apply not_elem_of_cons. split; [|exact IH].
      intros <-. apply Ascii.eqb_neq in E. congruence.
Qed.

Lemma c_str_app_NUL pre post : NUL ∉ pre -> c_str (pre ++ NUL :: post) = pre.
Proof.
  induction pre as [|x t IH]; simpl; intros H.
  - reflexivity.
  - apply not_elem_of_cons in H as [Hx Ht].
    destruct (Ascii.eqb x NUL) eqn:E.
    + apply Ascii.eqb_eq in E. congruence.
    + f_equal. auto.
Qed.

(** A character that the string does not hold is not found. *)
Lemma strchr_absent s c : c <> NUL -> c ∉ c_str s -> strchr s c = None.
Proof.
  intros Hc. induction s as [|x t IH]; simpl; intros H.
  - destruct (Ascii.eqb c NUL) eqn:E; [apply Ascii.eqb_eq in E; congruence | done].
  - destruct (Ascii.eqb x NUL) eqn:E.
    + apply Ascii.eqb_eq in E. subst x.
      destruct (Ascii.eqb NUL c) eqn:E'; [apply Ascii.eqb_eq in E'; congruence | done].
    + apply not_elem_of_cons in H as [Hx Ht].
      destruct (Ascii.eqb x c) eqn:E'; [apply Ascii.eqb_eq in E'; congruence|].
      rewrite IH; done.
Qed.

(** The first occurrence is found at its offset. *)
Lemma strchr_first pre c post :
  c ∉ pre -> NUL ∉ pre -> strchr (pre ++ c :: post) c = Some (length pre).
Proof.
  induction pre as [|x t IH]; simpl; intros Hc Hn.
  - by rewrite Ascii.eqb_refl.
  - apply not_elem_of_cons in Hc as [Hx Ht].
    apply not_elem_of_cons in Hn as [Hnx Hnt].
    destruct (Ascii.eqb x c) eqn:E; [apply Ascii.eqb_eq in E; congruence|].
    destruct (Ascii.eqb x NUL) eqn:E'; [apply Ascii.eqb_eq in E'; congruence|].
    by rewrite IH.
Qed.

(** Conversely, what [strchr] finds is a first occurrence. *)
Lemma strchr_Some s c i :
  c <> NUL -> strchr s c = Some i ->
  exists post, s = take i s ++ c :: post /\ (c ∉ take i s) /\ (NUL ∉ take i s).
Proof.
  intros Hc. revert i. induction s as [|x t IH]; simpl; intros i H.
  - destruct (Ascii.eqb c NUL) eqn:E; [apply Ascii.eqb_eq in E; congruence | done].
  - destruct (Ascii.eqb x c) eqn:E.
    + apply Ascii.eqb_eq in E. subst x. injection H as <-. simpl.
      exists t. split; [done|]. split; apply not_elem_of_nil.
    + destruct (Ascii.eqb x NUL) eqn:E'; [done|].
      destruct (strchr t c) as [j|] eqn:Hj; [|done].
      simpl in H. injection H as <-.
      destruct (IH j eq_refl) as (post & Heq & H1 & H2).
      exists post. simpl. split; [by rewrite <- Heq|].
      apply Ascii.eqb_neq in E, E'.
      split; apply not_elem_of_cons; (split; [congruence | done]).
Qed.

Lemma insert_sep pre c post :
  <[length pre := NUL]> (pre ++ c :: post) = pre ++ NUL :: post.
Proof.
  rewrite insert_app_r_alt by lia. by rewrite Nat.sub_diag.
Qed.

Lemma length_strncpy_bytes s n : length (strncpy_bytes s n) = n.
Proof.
  revert s. induction n as [|n IH]; intros s; [done|].
  destruct s as [|x t]; simpl.
  - by rewrite length_replicate.
  - destruct (Ascii.eqb x NUL); simpl; [by rewrite length_replicate | by rewrite IH].
Qed.

(** The copy of a string that ends at a NUL: its first [n] characters,
    padded with NUL up to [n] bytes. *)
Lemma strncpy_bytes_cut pre post n :
  NUL ∉ pre ->
  strncpy_bytes (pre ++ NUL :: post) n
  = take n pre ++ replicate (n - length pre) NUL.
Proof.
  revert n. induction pre as [|x t IH]; intros n Hn.
  - destruct n; simpl; [done|]. done.
  - apply not_elem_of_cons in Hn as [Hx Ht].
    destruct n as [|n]; [done|]. simpl.
    destruct (Ascii.eqb x NUL) eqn:E; [apply Ascii.eqb_eq in E; congruence|].
    by rewrite IH.
Qed.

Lemma c_str_take_pad pre n k post :
  NUL ∉ pre -> c_str (take n pre ++ replicate k NUL ++ NUL :: post) = take n pre.
Proof.
  intros Hn.
  assert (Ht : NUL ∉ take n pre).
  { rewrite <- (take_drop n pre) in Hn. by apply not_elem_of_app in Hn as [? _]. }
  destruct k as [|k]; simpl.
  - by apply c_str_app_NUL.
  - by apply c_str_app_NUL.
Qed.

End CStrings.

(** ** The scaler argument *)

Section ParseScaler.

Implicit Types (arg pre post stack : list ascii) (s : Scaler).

(** Without a separator nothing is written. *)
Lemma parseScaler_no_sep arg s : AT ∉ c_str arg -> parseScaler arg s = s.
Proof.
  intros H. unfold parseScaler. by rewrite strchr_absent.
Qed.

(** With a separator: the copy of the cut argument, the terminator in
    the last byte, and the number after the separator. *)
Lemma parseScaler_sep pre post s :
  AT ∉ pre -> NUL ∉ pre ->
  parseScaler (pre ++ AT :: post) s
  = mkScaler
      (<[(NAME_SIZE - 1)%nat := NUL]>
         (strncpy (name s) (pre ++ NUL :: post) (NAME_SIZE - 1)%nat))
      (atoi post).
Proof.
  intros Ha Hn. unfold parseScaler.
  rewrite strchr_first by done. rewrite insert_sep. simpl name.
  do 2 f_equal.
  replace (S (length pre)) with (length pre + 1)%nat by lia.
  rewrite <- drop_drop, drop_app_length. done.
Qed.

(** The 32 bytes of the name afterwards. *)
Lemma name_after_sep pre post s :
  AT ∉ pre -> NUL ∉ pre -> length (name s) = NAME_SIZE ->
  name (parseScaler (pre ++ AT :: post) s)
  = take 31 pre ++ replicate (31 - length pre) NUL ++ [NUL].
Proof.
  intros Ha Hn Hlen. rewrite parseScaler_sep by done. simpl name.
  unfold strncpy. change (NAME_SIZE - 1)%nat with 31%nat.
  rewrite strncpy_bytes_cut by done.
  assert (Hl : length (take 31 pre ++ replicate (31 - length pre) NUL) = 31%nat).
  { rewrite length_app, length_take, length_replicate. lia. }
  rewrite insert_app_r_alt by lia. rewrite Hl, Nat.sub_diag.
  rewrite <- app_assoc. do 2 f_equal.
  destruct (drop 31 (name s)) as [|x [|y t]] eqn:E.
  - apply (f_equal length) in E. rewrite length_drop, Hlen in E. done.
  - done.
  - apply (f_equal length) in E. rewrite length_drop, Hlen in E. done.
Qed.

Lemma to_int_range v : - 2 ^ 31 <= to_int v < 2 ^ 31.
Proof.
  unfold to_int.
  pose proof (Z.mod_pos_bound (v + 2 ^ 31) (2 ^ 32) ltac:(lia)). lia.
Qed.

Lemma atoi_range arg : - 2 ^ 31 <= atoi arg < 2 ^ 31.
Proof.
  unfold atoi. destruct (scan_decimal arg) as [[v rest]|].
  - apply to_int_range.
  - lia.
Qed.

End ParseScaler.

(** A character that a byte-by-byte comparison does not find is absent. *)
Lemma absent_char (c : ascii) (n : list ascii) :
  forallb (fun x => negb (Ascii.eqb x c)) n = true -> c ∉ n.
Proof.
  induction n as [|x n IH]; simpl; intros H.
  - apply not_elem_of_nil.
  - apply andb_prop in H as [Hx Hn]. apply not_elem_of_cons. split; [|auto].
    intros <-. by rewrite Ascii.eqb_refl in Hx.
Qed.

(** C7 (as amended): a scaler argument without ['@'] leaves the name
    and the factor as they were before it: the empty name and factor 1
    of [main] when no earlier scaler argument wrote them, whatever the
    argument holds.  With an ['@'], and whatever was stored before, the
    name becomes the first 31 characters of the text before the first
    ['@'] (all of that text when it has at most 31 characters) and the
    factor becomes [atoi] of the text after it. *)
Theorem C7_parseScaler_split s :
  (forall arg, AT ∉ c_str arg -> parseScaler arg s = s) /\
  (forall arg stack, AT ∉ c_str arg ->
     c_str (name (parseScaler arg (scaler0 stack))) = [] /\
     factor (parseScaler arg (scaler0 stack)) = 1) /\
  (forall pre post, length (name s) = NAME_SIZE -> AT ∉ pre -> NUL ∉ pre ->
     c_str (name (parseScaler (pre ++ AT :: post) s)) = take 31 pre /\
     ((length pre <= 31)%nat ->
      c_str (name (parseScaler (pre ++ AT :: post) s)) = pre) /\
     factor (parseScaler (pre ++ AT :: post) s) = atoi post).
Proof.
  split; [|split].
  - intros arg H. by apply parseScaler_no_sep.
  - intros arg stack H. rewrite parseScaler_no_sep by done.
    split; [|done]. unfold scaler0. simpl. by destruct stack.
  - intros pre post Hlen Ha Hn.
    assert (Hc : c_str (name (parseScaler (pre ++ AT :: post) s)) = take 31 pre).
    { rewrite name_after_sep by done. by apply c_str_take_pad. }
    split; [exact Hc|]. split.
    + intros Hle. rewrite Hc. by apply take_ge.
    + by rewrite parseScaler_sep.
Qed.

Lemma C7_parseScaler_split_witness :
  ((AT ∉ c_str (bytes "xbr")) /\
   parseScaler (bytes "xbr") (mkScaler (bytes "a-long-scaler-name-of-32-bytes!!") 7)
   = mkScaler (bytes "a-long-scaler-name-of-32-bytes!!") 7) /\
  (c_str (name (parseScaler (bytes "hq" ++ AT :: bytes "3")
                  (mkScaler (bytes "a-long-scaler-name-of-32-bytes!!") 7)))
   = bytes "hq" /\
   factor (parseScaler (bytes "hq" ++ AT :: bytes "3")
             (mkScaler (bytes "a-long-scaler-name-of-32-bytes!!") 7)) = 3).
Proof.
  assert (Hq : forall c, c ∉ bytes "hq" <-> c <> "h"%char /\ c <> "q"%char).
  { intros c. unfold bytes. simpl. rewrite !not_elem_of_cons.
    pose proof (not_elem_of_nil c). tauto. }
  assert (Hx : AT ∉ c_str (bytes "xbr")) by (by apply absent_char).
  assert (Ha : AT ∉ bytes "hq") by (apply Hq; split; discriminate).
  assert (Hn : NUL ∉ bytes "hq") by (apply Hq; split; discriminate).
  destruct (C7_parseScaler_split
              (mkScaler (bytes "a-long-scaler-name-of-32-bytes!!") 7))
    as (H1 & _ & H3).
  split.
  - split; [exact Hx|]. exact (H1 (bytes "xbr") Hx).
  - destruct (H3 (bytes "hq") (bytes "3") eq_refl Ha Hn) as (Hname & _ & Hf).
    split; [exact Hname | exact Hf].
Defined.

(** C7, the claim as written, fails.  A name of 32 characters before
    the ['@'] is not stored whole; and an argument without ['@'] that
    comes after ["hq@3"] leaves the name ["hq"] and the factor 3, not
    the defaults. *)
Lemma C7_counterexample :
  let pre := replicate 32 "a"%char in
  strchr (pre ++ bytes "@2") AT = Some 32%nat /\
  c_str (name (parseScaler (pre ++ bytes "@2") (scaler0 (replicate 32 "x"%char))))
  <> pre /\
  strchr (bytes "xbr") AT = None /\
  c_str (name (parseScaler (bytes "xbr")
                 (parseScaler (bytes "hq@3") (scaler0 (replicate 32 "x"%char)))))
  = bytes "hq" /\
  factor (parseScaler (bytes "xbr")
            (parseScaler (bytes "hq@3") (scaler0 (replicate 32 "x"%char)))) = 3.
Proof. repeat split; try reflexivity. discriminate. Qed.

(** C10: for a scaler argument with an ['@'], the stored name is the
    text before the first ['@'] cut to 31 characters: at most 31
    characters long, the first 31 of a longer text, and the last byte of
    the 32-byte array is NUL. *)
Theorem C10_scaler_name_truncated pre post s :
  AT ∉ pre -> NUL ∉ pre -> length (name s) = NAME_SIZE ->
  let s' := parseScaler (pre ++ AT :: post) s in
  c_str (name s') = take 31 pre /\
  (length (c_str (name s')) <= 31)%nat /\
  ((31 < length pre)%nat -> length (c_str (name s')) = 31%nat) /\
  name s' !! 31%nat = Some NUL /\
  length (name s') = NAME_SIZE.
Proof.
  intros Ha Hn Hlen s'. subst s'.
  rewrite name_after_sep by done.
  rewrite c_str_take_pad by done.
  split; [done|]. split; [rewrite length_take; lia|].
  split; [intros Hlt; rewrite length_take; lia|].
  assert (Hl : length (take 31 pre ++ replicate (31 - length pre) NUL) = 31%nat).
  { rewrite length_app, length_take, length_replicate. lia. }
  rewrite app_assoc. split.
  - rewrite lookup_app_r by lia. by rewrite Hl.
  - rewrite length_app, Hl. done.
Qed.

Lemma C10_scaler_name_truncated_witness :
  let pre := replicate 40 "a"%char in
  let s' := parseScaler (pre ++ AT :: bytes "2") (mkScaler (replicate 32 "x"%char) 1) in
  c_str (name s') = replicate 31 "a"%char /\ name s' !! 31%nat = Some NUL.
Proof.
  assert (Hr : forall c, c <> "a"%char -> c ∉ replicate 40 "a"%char).
  { intros c Hc Hin. apply elem_of_replicate in Hin as [-> _]. done. }
  destruct (C10_scaler_name_truncated (replicate 40 "a"%char) (bytes "2")
              (mkScaler (replicate 32 "x"%char) 1)
              (Hr AT ltac:(discriminate)) (Hr NUL ltac:(discriminate)) eq_refl)
    as (H1 & _ & _ & H2 & _).
  split; [exact H1 | exact H2].
Defined.

(** C6 (as amended): a scaler argument without ['@'] leaves the factor
    as it was, whatever that is (1 when no earlier scaler argument
    wrote it); with an ['@'] the factor becomes [atoi] of the text after
    it, whatever it was, so it is at least 1 exactly when that number
    is.  The factor stays an [int]. *)
Theorem C6_factor_after_parse s :
  (forall arg, AT ∉ c_str arg -> factor (parseScaler arg s) = factor s) /\
  (forall pre post, AT ∉ pre -> NUL ∉ pre ->
     factor (parseScaler (pre ++ AT :: post) s) = atoi post /\
     (1 <= factor (parseScaler (pre ++ AT :: post) s) <-> 1 <= atoi post)) /\
  (forall arg, - 2 ^ 31 <= factor s < 2 ^ 31 ->
     - 2 ^ 31 <= factor (parseScaler arg s) < 2 ^ 31) /\
  (forall stack, factor (scaler0 stack) = 1).
Proof.
  split; [|split; [|split]].
  - intros arg H. by rewrite parseScaler_no_sep.
  - intros pre post Ha Hn. rewrite parseScaler_sep by done. done.
  - intros arg Hs. unfold parseScaler.
    destruct (strchr arg AT) as [i|]; simpl.
    + apply atoi_range.
    + lia.
  - done.
Qed.

Lemma C6_factor_after_parse_witness :
  factor (parseScaler (bytes "hq" ++ AT :: bytes "3")
            (parseScaler (bytes "name@0") (scaler0 []))) = 3 /\
  - 2 ^ 31 <= factor (parseScaler (bytes "name@-2")
                        (parseScaler (bytes "name@0") (scaler0 []))) < 2 ^ 31.
Proof.
  assert (Hq : forall c, c <> "h"%char -> c <> "q"%char -> c ∉ bytes "hq").
  { intros c H1 H2. unfold bytes. simpl. rewrite !not_elem_of_cons.
    pose proof (not_elem_of_nil c). tauto. }
  destruct (C6_factor_after_parse (parseScaler (bytes "name@0") (scaler0 [])))
    as (_ & H2 & H3 & _).
  split.
  - destruct (H2 (bytes "hq") (bytes "3")
                (Hq AT ltac:(discriminate) ltac:(discriminate))
                (Hq NUL ltac:(discriminate) ltac:(discriminate))) as [Hf _].
    exact Hf.
  - apply (H3 (bytes "name@-2")).
    assert (E : factor (parseScaler (bytes "name@0") (scaler0 [])) = 0)
      by reflexivity.
    rewrite E. lia.
Defined.

(** C6, the claim as written, fails: ["name@0"], ["name@-2"] and
    ["name@"] give the factors 0, -2 and 0. *)
Lemma C6_counterexample :
  factor (parseScaler (bytes "name@0") (scaler0 (replicate 32 "x"%char))) = 0 /\
  factor (parseScaler (bytes "name@-2") (scaler0 (replicate 32 "x"%char))) = -2 /\
  factor (parseScaler (bytes "name@") (scaler0 (replicate 32 "x"%char))) = 0 /\
  ~ 1 <= factor (parseScaler (bytes "name@0") (scaler0 (replicate 32 "x"%char))).
Proof.
  assert (E : factor (parseScaler (bytes "name@0")
                        (scaler0 (replicate 32 "x"%char))) = 0) by reflexivity.
  rewrite E. repeat split; try reflexivity. lia.
Qed.

(** ** The window geometry *)

(** C3 (as amended): when a geometry argument does not yield two
    integers, the height, the mode and the GL flag keep their values;
    the width keeps its value when no leading integer is read, and
    takes the first integer when one is read and the ['x'] or the
    second integer is missing. *)
Theorem C3_window_partial_update optarg d :
  length (sscanf optarg WxH) <> 2%nat ->
  height (scan_window optarg d) = height d /\
  mode (scan_window optarg d) = mode d /\
  opengl (scan_window optarg d) = opengl d /\
  width (scan_window optarg d)
  = match scan_decimal optarg with
    | Some (v, _) => to_int v
    | None => width d
    end.
Proof.
  unfold scan_window, WxH. simpl sscanf.
  destruct (scan_decimal optarg) as [[v rest]|]; [|done].
  destruct rest as [|x rest']; [done|].
  destruct (Ascii.eqb x NUL); [done|].
  destruct (Ascii.eqb x "x"); [|done].
  destruct (scan_decimal rest') as [[v' rest'']|]; [|done].
  simpl. intros H. done.
Qed.

Lemma C3_window_partial_update_witness :
  height (scan_window (bytes "800x") (mkDisplayMode WINDOWED 640 400 true)) = 400 /\
  width (scan_window (bytes "800x") (mkDisplayMode WINDOWED 640 400 true)) = 800.
Proof.
  destruct (C3_window_partial_update (bytes "800x")
              (mkDisplayMode WINDOWED 640 400 true) ltac:(discriminate))
    as (Hh & _ & _ & Hw).
  split; [exact Hh | exact Hw].
Defined.

(** C3, the claim as written, fails: ["800"] does not match two
    integers, and the width is overwritten. *)
Lemma C3_counterexample :
  let d := dm (locals0 (env_of [] DT_3DO)) in
  length (sscanf (bytes "800") WxH) <> 2%nat /\
  width d = 640 /\
  width (scan_window (bytes "800") d) = 800 /\
  height (scan_window (bytes "800") d) = height d.
Proof. repeat split; try reflexivity. discriminate. Qed.

(** A geometry argument that does yield two integers sets both. *)
Lemma scan_window_both optarg d w h rest :
  sscanf optarg WxH = w :: h :: rest ->
  width (scan_window optarg d) = w /\ height (scan_window optarg d) = h.
Proof. unfold scan_window. by intros ->. Qed.

(** ** Backend construction *)

(** C8: building the backend for [GRAPHICS_ORIGINAL] sets the 1991 flag;
    building it for [GRAPHICS_SOFTWARE] or [GRAPHICS_GL] leaves the flag
    as it was, which is [false] when the process starts. *)
Theorem C8_is1991_only_for_original USE_GL w :
  Graphics_is1991 (snd (createGraphics USE_GL GRAPHICS_ORIGINAL w)) = true /\
  Graphics_is1991 (snd (createGraphics USE_GL GRAPHICS_SOFTWARE w))
  = Graphics_is1991 w /\
  Graphics_is1991 (snd (createGraphics USE_GL GRAPHICS_GL w))
  = Graphics_is1991 w /\
  Graphics_is1991 (snd (createGraphics USE_GL GRAPHICS_SOFTWARE world0)) = false /\
  Graphics_is1991 (snd (createGraphics USE_GL GRAPHICS_GL world0)) = false.
Proof.
  repeat split; try reflexivity; by destruct USE_GL.
Qed.

(** C9: without GL support in the build, asking for the GL backend
    yields no instance: no renderer is created, the software one
    included. *)
Theorem C9_gl_not_compiled_in w :
  fst (createGraphics false GRAPHICS_GL w) = None /\
  trace (snd (createGraphics false GRAPHICS_GL w))
  = trace w ++ [EvDebug "Using GL graphics"].
Proof. split; reflexivity. Qed.

(** The other cases do yield an instance, of the kind asked for. *)
Lemma createGraphics_instance USE_GL g w :
  fst (createGraphics USE_GL g w)
  = match g with
    | GRAPHICS_ORIGINAL | GRAPHICS_SOFTWARE => Some GraphicsSoft
    | GRAPHICS_GL => if USE_GL then Some GraphicsGL else None
    end.
Proof. destruct g; try reflexivity. by destruct USE_GL. Qed.

(** ** The option loop *)

Section OptionLoop.

Implicit Types (l : Locals) (w : World) (o : getopt_result).

Ltac run_M :=
  unfold bind, ret, emit, set_useEGA, set_use565, set_is1991 in *; simpl in *.

(** A turn of the loop that goes on emits nothing and leaves the
    renderer flags alone. *)
Lemma handle_option_world o l w l' w' :
  handle_option o l w = (Some l', w') -> same_renderer_state w w'.
Proof.
  unfold same_renderer_state.
  destruct o; simpl; run_M; repeat case_match; intros ?; by simplify_eq.
Qed.

Lemma handle_option_consistent o l w l' w' :
  gl_consistent l -> handle_option o l w = (Some l', w') -> gl_consistent l'.
Proof.
  unfold gl_consistent. intros Hl.
  destruct o; simpl; run_M; repeat case_match; intros ?; simplify_eq;
    simpl; try done.
  unfold scan_window. by repeat case_match.
Qed.

(** Only [--render] with a name of the table clears [defaultGraphics]. *)
Lemma handle_option_default o l w l' w' :
  handle_option o l w = (Some l', w') ->
  defaultGraphics l'
  = match o with
    | Opt_r optarg =>
        match lookup_name optarg GRAPHICS with
        | Some _ => false
        | None => defaultGraphics l
        end
    | _ => defaultGraphics l
    end.
Proof.
  destruct o; simpl; run_M; repeat case_match; intros ?; by simplify_eq.
Qed.

(** An invariant of the turns is an invariant of the loop. *)
Lemma option_loop_inv (P : Locals -> World -> Prop) :
  (forall o l w l' w', P l w -> handle_option o l w = (Some l', w') -> P l' w') ->
  forall opts l w l' w',
    P l w -> option_loop opts l w = (Some l', w') -> P l' w'.
Proof.
  intros Hstep opts. induction opts as [|o rest IH]; intros l w l' w' HP H.
  - simpl in H. unfold ret in H. by simplify_eq.
  - simpl in H. unfold bind in H.
    destruct (handle_option o l w) as [[l1|] w1] eqn:E.
    + eapply IH; [|exact H]. eapply Hstep; eauto.
    + unfold ret in H. simplify_eq.
Qed.

Lemma option_loop_world opts l w l' w' :
  option_loop opts l w = (Some l', w') -> same_renderer_state w w'.
Proof.
  intros H.
  apply (option_loop_inv (fun _ w1 => same_renderer_state w w1))
    with (opts := opts) (l := l) (w := w) (l' := l'); [| done | exact H].
  intros o l0 w0 l1 w1 (H1 & H2 & H3) Hh.
  destruct (handle_option_world _ _ _ _ _ Hh) as (G1 & G2 & G3).
  unfold same_renderer_state. by rewrite G1, G2, G3.
Qed.

Lemma option_loop_consistent opts l w l' w' :
  gl_consistent l -> option_loop opts l w = (Some l', w') -> gl_consistent l'.
Proof.
  intros Hl H.
  apply (option_loop_inv (fun l1 _ => gl_consistent l1))
    with (opts := opts) (l := l) (w := w) (w' := w'); [| done | exact H].
  intros o l0 w0 l1 w1 HP Hh. eapply handle_option_consistent; eauto.
Qed.

Lemma parse_options_consistent env w l w' :
  parse_options env w = (Some l, w') -> gl_consistent l.
Proof.
  unfold parse_options. apply option_loop_consistent.
  by destruct (_ && _).
Qed.

Lemma parse_options_world env w l w' :
  parse_options env w = (Some l, w') -> same_renderer_state w w'.
Proof. unfold parse_options. apply option_loop_world. Qed.

(** A command line without [--render] requests no renderer. *)
Lemma no_render_no_request env w l w' :
  Forall (fun o => match o with Opt_r _ => False | _ => True end) (options env) ->
  parse_options env w = (Some l, w') -> requestedBackend l = None.
Proof.
  unfold parse_options, requestedBackend.
  set (l1 := if _ && _ then _ else _).
  assert (Hd : defaultGraphics l1 = true) by (subst l1; by destruct (_ && _)).
  clearbody l1. revert l1 w Hd.
  induction (options env) as [|o rest IH]; intros l1 w Hd Hall H.
  - simpl in H. unfold ret in H. simplify_eq. by rewrite Hd.
  - apply Forall_cons in Hall as [Ho Hrest].
    simpl in H. unfold bind in H.
    destruct (handle_option o l1 w) as [[l2|] w2] eqn:E.
    + eapply IH; [| exact Hrest | exact H].
      rewrite (handle_option_default _ _ _ _ _ E). by destruct o.
    + unfold ret in H. simplify_eq.
Qed.

End OptionLoop.

(** ** The choice of the renderer *)

Section Resolution.

Implicit Types (l : Locals) (w : World) (env : Env).

(** Once the options are read, [startup] builds the engine and
    resolves the renderer. *)
Lemma startup_parsed env w l w1 :
  parse_options env w = (Some l, w1) ->
  startup env w
  = (let '(l', w2) :=
       resolve (dataType env) l
         (snd ((emit EvSetDebugMask ;; emit (EvNewEngine (dataPath l) (part l))) w1))
     in (Some l', w2)).
Proof.
  intros H. unfold startup. unfold bind at 1. rewrite H.
  unfold bind, ret, emit. simpl. by destruct (resolve _ _ _).
Qed.

Lemma startup_usage env w w1 :
  parse_options env w = (None, w1) -> startup env w = (None, w1).
Proof. intros H. unfold startup. unfold bind at 1. by rewrite H. Qed.

(** What [resolve] returns: the renderer, and the 565 flag. *)
Lemma resolve_graphicsType dt l w :
  graphicsType (fst (resolve dt l w))
  = (let g := if defaultGraphics l then getGraphicsType dt else graphicsType l in
     if negb (GraphicsType_eqb g GRAPHICS_GL) && is_DT_3DO dt
     then GRAPHICS_SOFTWARE else g).
Proof.
  unfold resolve, bind, ret, set_use565.
  destruct (defaultGraphics l); simpl;
    by destruct (negb _ && _).
Qed.

Lemma resolve_use565 dt l w :
  Graphics_use565 (snd (resolve dt l w))
  = (let g := if defaultGraphics l then getGraphicsType dt else graphicsType l in
     if negb (GraphicsType_eqb g GRAPHICS_GL) && is_DT_3DO dt
     then true else Graphics_use565 w).
Proof.
  unfold resolve, bind, ret, set_use565.
  destruct (defaultGraphics l); simpl;
    by destruct (negb _ && _).
Qed.

Lemma resolve_trace dt l w : trace (snd (resolve dt l w)) = trace w.
Proof.
  unfold resolve, bind, ret, set_use565.
  destruct (defaultGraphics l); simpl;
    by destruct (negb _ && _).
Qed.

Lemma resolve_consistent dt l w :
  gl_consistent l -> gl_consistent (fst (resolve dt l w)).
Proof.
  unfold gl_consistent, resolve, bind, ret, set_use565. intros Hl.
  destruct (defaultGraphics l); simpl.
  - by destruct dt.
  - destruct (graphicsType l) eqn:Eg, dt; simpl; rewrite ?Eg; done.
Qed.

End Resolution.

(** C4: whatever the command line and the data files, once the renderer
    is resolved the GL flag of the display mode says whether the
    renderer is GL. *)
Theorem C4_gl_surface_matches_backend env w l :
  fst (startup env w) = Some l ->
  opengl (dm l) = GraphicsType_eqb (graphicsType l) GRAPHICS_GL.
Proof.
  destruct (parse_options env w) as [[l0|] w1] eqn:E.
  - rewrite (startup_parsed _ _ _ _ E).
    pose proof (parse_options_consistent _ _ _ _ E) as H0.
    pose proof (resolve_consistent (dataType env) l0
      (snd ((emit EvSetDebugMask ;; emit (EvNewEngine (dataPath l0) (part l0))) w1))
      H0) as H1.
    destruct (resolve _ _ _) as [l' w2]. simpl in *.
    intros ?. by simplify_eq.
  - rewrite (startup_usage _ _ _ E). simpl. done.
Qed.

Lemma C4_gl_surface_matches_backend_witness :
  exists l,
    fst (startup (env_of [Opt_r (bytes "software")] DT_3DO) world0) = Some l /\
    opengl (dm l) = GraphicsType_eqb (graphicsType l) GRAPHICS_GL.
Proof.
  eexists. split; [reflexivity|].
  apply (C4_gl_surface_matches_backend
           (env_of [Opt_r (bytes "software")] DT_3DO) world0).
  reflexivity.
Defined.

(** C5: when the command line requests no renderer, the renderer is GL
    for the data of the 15th anniversary edition, the 20th anniversary
    edition and the 3DO, and the original one for any other data. *)
Theorem C5_default_backend env w l :
  fst (parse_options env w) = Some l ->
  requestedBackend l = None ->
  exists l', fst (startup env w) = Some l' /\
    (dataType env = DT_15TH_EDITION \/ dataType env = DT_20TH_EDITION \/
     dataType env = DT_3DO -> graphicsType l' = GRAPHICS_GL) /\
    (dataType env <> DT_15TH_EDITION -> dataType env <> DT_20TH_EDITION ->
     dataType env <> DT_3DO -> graphicsType l' = GRAPHICS_ORIGINAL).
Proof.
  destruct (parse_options env w) as [[l0|] w1] eqn:E; simpl; [|done].
  intros ? Hreq. simplify_eq.
  unfold requestedBackend in Hreq.
  destruct (defaultGraphics l) eqn:Hd; [|done].
  rewrite (startup_parsed _ _ _ _ E).
  pose proof (resolve_graphicsType (dataType env) l
    (snd ((emit EvSetDebugMask ;; emit (EvNewEngine (dataPath l) (part l))) w1)))
    as Hg.
  destruct (resolve _ _ _) as [l' w2]. simpl in Hg.
  exists l'. split; [done|]. rewrite Hg, Hd.
  destruct (dataType env); simpl; split; try done; intuition congruence.
Qed.

Lemma C5_default_backend_witness :
  exists l',
    fst (startup (env_of [Opt_p (bytes "1")] DT_20TH_EDITION) world0) = Some l' /\
    graphicsType l' = GRAPHICS_GL.
Proof.
  destruct (C5_default_backend (env_of [Opt_p (bytes "1")] DT_20TH_EDITION)
              world0 _ eq_refl eq_refl) as (l' & H1 & H2 & _).
  exists l'. split; [exact H1|]. apply H2. right. left. reflexivity.
Defined.

(** C1 (as amended): with the data of the 3DO and an explicit request
    for a renderer, a request for GL is kept, and the 565 flag is left
    as it was; a request for another renderer is turned into the
    software renderer with the 565 flag set. *)
Theorem C1_3do_override_spares_gl env w l g :
  fst (parse_options env w) = Some l ->
  requestedBackend l = Some g ->
  dataType env = DT_3DO ->
  exists l', fst (startup env w) = Some l' /\
    if GraphicsType_eqb g GRAPHICS_GL
    then graphicsType l' = GRAPHICS_GL /\
         Graphics_use565 (snd (startup env w)) = Graphics_use565 w
    else graphicsType l' = GRAPHICS_SOFTWARE /\
         Graphics_use565 (snd (startup env w)) = true.
Proof.
  destruct (parse_options env w) as [[l0|] w1] eqn:E; simpl; [|done].
  intros ? Hreq Hdt. simplify_eq.
  unfold requestedBackend in Hreq.
  destruct (defaultGraphics l) eqn:Hd; [done|]. simplify_eq.
  destruct (parse_options_world _ _ _ _ E) as (_ & H565 & _).
  rewrite (startup_parsed _ _ _ _ E).
  set (w2 := snd ((emit EvSetDebugMask ;; emit (EvNewEngine (dataPath l) (part l))) w1)).
  pose proof (resolve_graphicsType (dataType env) l w2) as Hg.
  pose proof (resolve_use565 (dataType env) l w2) as Hu.
  destruct (resolve _ _ _) as [l' w3]. simpl in Hg, Hu.
  exists l'. split; [done|]. simpl.
  rewrite Hg, Hu, Hd, Hdt. subst w2. simpl.
  by destruct (graphicsType l).
Qed.

Lemma C1_3do_override_spares_gl_witness :
  exists l',
    fst (startup (env_of [Opt_r (bytes "original")] DT_3DO) world0) = Some l' /\
    graphicsType l' = GRAPHICS_SOFTWARE /\
    Graphics_use565 (snd (startup (env_of [Opt_r (bytes "original")] DT_3DO) world0))
    = true.
Proof.
  destruct (C1_3do_override_spares_gl (env_of [Opt_r (bytes "original")] DT_3DO)
              world0 _ GRAPHICS_ORIGINAL eq_refl eq_refl eq_refl)
    as (l' & H1 & H2).
  exists l'. split; [exact H1 | exact H2].
Defined.

(** C1, the claim as written, fails: [--render gl] with the data of the
    3DO gives the GL renderer, and the 565 flag stays clear. *)
Lemma C1_counterexample :
  let env := env_of [Opt_r (bytes "gl")] DT_3DO in
  (requestedBackend <$> fst (parse_options env world0)) = Some (Some GRAPHICS_GL) /\
  dataType env = DT_3DO /\
  (graphicsType <$> fst (startup env world0)) = Some GRAPHICS_GL /\
  Graphics_use565 (snd (startup env world0)) = false /\
  ~ ((graphicsType <$> fst (startup env world0)) = Some GRAPHICS_SOFTWARE /\
     Graphics_use565 (snd (startup env world0)) = true).
Proof.
  repeat split; try reflexivity. intros [H _]. discriminate H.
Qed.

(** ** The order of the calls *)

Section Trace.

Implicit Types (l : Locals) (w : World) (env : Env) (tr pre : list event).

Lemma run_loop_trace n w :
  run_loop n w
  = (tt, mkWorld (Graphics_is1991 w) (Graphics_use565 w) (Video_useEGA w)
           (trace w ++ replicate n EvRun)).
Proof.
  revert w. induction n as [|n IH]; intros w; simpl.
  - unfold ret. rewrite app_nil_r. by destruct w.
  - unfold bind, emit. rewrite IH. simpl. by rewrite <- app_assoc.
Qed.

Lemma shift_cons (e : event) x pre tr :
  x = pre ++ tr -> e :: x = (e :: pre) ++ tr.
Proof. by intros ->. Qed.

(** Everything [play] calls, in order: the construction, the frames,
    then the four calls of the teardown. *)
Lemma play_trace env l w :
  exists pre,
    trace (snd (play env l w))
    = trace w ++ pre ++ [EvFinish; EvDeleteEngine; EvStubFini; EvDeleteStub] /\
    Forall (fun e => is_release e = false) pre.
Proof.
  assert (Hrun : Forall (fun e => is_release e = false)
                   (replicate (frames env) EvRun)).
  { apply Forall_replicate. done. }
  unfold play, teardown, createGraphics.
  destruct (graphicsType l), (USE_GL env);
    unfold bind, ret, emit, set_is1991; simpl;
    rewrite run_loop_trace; simpl;
    rewrite <- !app_assoc; simpl;
    eexists;
    (split; [f_equal; repeat (eapply shift_cons); reflexivity|]);
    repeat (constructor; [done|]); exact Hrun.
Qed.

Lemma find_index_app p pre tr :
  Forall (fun e => p e = false) pre ->
  find_index p (pre ++ tr) = (fun i => (length pre + i)%nat) <$> find_index p tr.
Proof.
  induction pre as [|e rest IH]; intros H; simpl.
  - by destruct (find_index p tr).
  - apply Forall_cons in H as [He Hrest]. rewrite He, IH by done.
    by destruct (find_index p tr).
Qed.

End Trace.

(** C2 (as amended): a run that gets past the option loop ends with
    the engine's [finish], the release of the engine, then [fini] on the
    platform stub and the release of the stub: the engine is released
    first and the stub after it. *)
Theorem C2_engine_released_before_stub env w l :
  fst (startup env w) = Some l ->
  Forall (fun e => is_release e = false) (trace w) ->
  (exists pre,
     trace (snd (main env w))
     = pre ++ [EvFinish; EvDeleteEngine; EvStubFini; EvDeleteStub] /\
     Forall (fun e => is_release e = false) pre) /\
  happens_before is_engine_release is_stub_release (trace (snd (main env w)))
  = true /\
  happens_before is_stub_release is_engine_release (trace (snd (main env w)))
  = false.
Proof.
  intros Hs Hw.
  assert (Hpre : exists pre,
     trace (snd (main env w))
     = pre ++ [EvFinish; EvDeleteEngine; EvStubFini; EvDeleteStub] /\
     Forall (fun e => is_release e = false) pre).
  { unfold main. unfold bind at 1.
    destruct (parse_options env w) as [[l0|] w1] eqn:E.
    - rewrite (startup_parsed _ _ _ _ E) in Hs |- *.
      destruct (parse_options_world _ _ _ _ E) as (_ & _ & Htr).
      set (w2 := snd ((emit EvSetDebugMask ;;
                       emit (EvNewEngine (dataPath l0) (part l0))) w1)) in *.
      pose proof (resolve_trace (dataType env) l0 w2) as Hrt.
      destruct (resolve (dataType env) l0 w2) as [l' w3]. simpl in Hs, Hrt.
      simplify_eq.
      destruct (play_trace env l w3) as (pre & Hp & Hf).
      unfold bind, ret. destruct (play env l w3) as [[] w4]. simpl in *.
      exists (trace w3 ++ pre). split; [by rewrite <- app_assoc|].
      apply Forall_app. split; [|done].
      rewrite Hrt. subst w2. simpl. rewrite Htr.
      rewrite !Forall_app. repeat split; [done| |]; by repeat constructor.
    - rewrite (startup_usage _ _ _ E) in Hs. done. }
  split; [exact Hpre|].
  destruct Hpre as (pre & -> & Hf).
  assert (He : Forall (fun e => is_engine_release e = false) pre).
  { eapply Forall_impl; [exact Hf|]. intros e. unfold is_release.
    by destruct (is_engine_release e). }
  assert (Hst : Forall (fun e => is_stub_release e = false) pre).
  { eapply Forall_impl; [exact Hf|]. intros e. unfold is_release.
    by destruct (is_engine_release e), (is_stub_release e). }
  unfold happens_before. rewrite !find_index_app by done. simpl.
  split.
  - apply Nat.ltb_lt. lia.
  - apply Nat.ltb_ge. lia.
Qed.

Lemma C2_engine_released_before_stub_witness :
  happens_before is_engine_release is_stub_release
    (trace (snd (main (env_of [Opt_p (bytes "1")] (DT_LEGACY 0)) world0)))
  = true.
Proof.
  destruct (C2_engine_released_before_stub
              (env_of [Opt_p (bytes "1")] (DT_LEGACY 0)) world0 _ eq_refl
              (Forall_nil_2 _)) as (_ & H & _).
  exact H.
Defined.

(** C2, the claim as written, fails: in a run the engine is deleted
    before the stub is finished and deleted, not after. *)
Lemma C2_counterexample :
  let tr := trace (snd (main (env_of [] DT_3DO) world0)) in
  find_index is_engine_release tr = Some 11%nat /\
  find_index is_stub_release tr = Some 12%nat /\
  drop 10 tr = [EvFinish; EvDeleteEngine; EvStubFini; EvDeleteStub] /\
  happens_before is_stub_release is_engine_release tr = false.
Proof. repeat split; reflexivity. Qed.

(** * Further properties *)

(** ** Names and numbers *)

Section Names.

Implicit Types (a b s ds rest : list ascii) (c x y : ascii).

Lemma code_inj x y : code x = code y -> x = y.
Proof.
  unfold code. intros H. apply Nat2Z.inj in H.
  rewrite <- (ascii_nat_embedding x), <- (ascii_nat_embedding y). by rewrite H.
Qed.

Lemma code_NUL x : code x = 0 <-> x = NUL.
Proof.
  split; [|by intros ->].
  intros H. apply code_inj. by rewrite H.
Qed.

(** [strcmp] returns 0 exactly on equal strings. *)
Lemma strcmp_0 a b : strcmp a b = 0 <-> c_str a = c_str b.
Proof.
  revert b. induction a as [|x a IH]; intros [|y b]; simpl.
  - done.
  - destruct (Ascii.eqb y NUL) eqn:E.
    + apply Ascii.eqb_eq in E. subst y. done.
    + apply Ascii.eqb_neq in E. split; [|done].
      intros H. destruct E. apply code_NUL. lia.
  - destruct (Ascii.eqb x NUL) eqn:E.
    + apply Ascii.eqb_eq in E. subst x. done.
    + apply Ascii.eqb_neq in E. split; [|done].
      intros H. destruct E. by apply code_NUL.
  - destruct (Ascii.eqb x y) eqn:E.
    + apply Ascii.eqb_eq in E. subst y.
      destruct (Ascii.eqb x NUL); [done|].
      rewrite IH. split; [by intros -> | by intros [= ->]].
    + apply Ascii.eqb_neq in E.
      assert (Hc : code x - code y <> 0).
      { intros H. apply E, code_inj. lia. }
      split; [done|]. intros H. exfalso.
      destruct (Ascii.eqb x NUL) eqn:Ex, (Ascii.eqb y NUL) eqn:Ey;
        try discriminate H.
      * apply Ascii.eqb_eq in Ex, Ey. congruence.
      * injection H as H _. done.
Qed.

Lemma strcmp_eqb a n : NUL ∉ n ->
  (strcmp a n =? 0) = true <-> c_str a = n.
Proof.
  intros Hn. rewrite Z.eqb_eq, strcmp_0.
  assert (c_str n = n) as ->; [|done].
  induction n as [|x n IH]; simpl; [done|].
  apply not_elem_of_cons in Hn as [Hx Hn].
  destruct (Ascii.eqb x NUL) eqn:E.
  - apply Ascii.eqb_eq in E. congruence.
  - by rewrite IH.
Qed.

(** A lookup succeeds on the first entry of that name, and fails when
    no entry has it. *)
Lemma lookup_name_hit {A} a n (v : A) table :
  NUL ∉ n -> c_str a = n -> lookup_name a ((n, v) :: table) = Some v.
Proof.
  intros Hn Ha. simpl.
  destruct (strcmp a n =? 0) eqn:E; [done|].
  apply (strcmp_eqb a n Hn) in Ha. congruence.
Qed.

Lemma lookup_name_skip {A} a n (v : A) table :
  NUL ∉ n -> c_str a <> n ->
  lookup_name a ((n, v) :: table) = lookup_name a table.
Proof.
  intros Hn Ha. simpl.
  destruct (strcmp a n =? 0) eqn:E; [|done].
  apply (strcmp_eqb a n Hn) in E. done.
Qed.

Lemma no_NUL_bytes (n : list ascii) :
  forallb (fun c => negb (Ascii.eqb c NUL)) n = true -> NUL ∉ n.
Proof.
  induction n as [|x n IH]; simpl; intros H.
  - apply not_elem_of_nil.
  - apply andb_prop in H as [Hx Hn]. apply not_elem_of_cons. split; [|auto].
    intros <-. done.
Qed.

(** Digits are neither white space nor signs. *)
Lemma isdigit_plain c :
  isdigit c = true ->
  isspace c = false /\ Ascii.eqb c "-" = false /\ Ascii.eqb c "+" = false /\
  0 <= code c - 48 <= 9.
Proof.
  unfold isdigit, isspace. intros H.
  apply andb_prop in H as [H1 H2].
  apply Z.leb_le in H1, H2.
  repeat split; try lia.
  - apply Ascii.eqb_neq. intros ->. vm_compute in H1. done.
  - apply Ascii.eqb_neq. intros ->. vm_compute in H1. done.
Qed.

Lemma span_digits_app ds rest :
  Forall (fun c => isdigit c = true) ds -> stops rest ->
  span_digits (ds ++ rest) = (ds, rest).
Proof.
  intros Hd Hr. induction Hd as [|c ds Hc Hds IH]; simpl.
  - destruct rest as [|c t]; [done|]. simpl in *. by rewrite Hr.
  - by rewrite Hc, IH.
Qed.

Lemma decimal_nonneg_aux ds acc :
  Forall (fun c => isdigit c = true) ds -> 0 <= acc ->
  0 <= fold_left (fun acc c => acc * 10 + (code c - 48)) ds acc.
Proof.
  intros Hd. revert acc. induction Hd as [|c ds Hc Hds IH]; intros acc Ha; simpl.
  - done.
  - apply IH. apply isdigit_plain in Hc as (_ & _ & _ & Hc). lia.
Qed.

Lemma decimal_nonneg ds :
  Forall (fun c => isdigit c = true) ds -> 0 <= decimal ds.
Proof. intros Hd. by apply decimal_nonneg_aux. Qed.

Lemma to_int_small v : - 2 ^ 31 <= v < 2 ^ 31 -> to_int (clamp_long v) = v.
Proof.
  intros Hv. unfold clamp_long, LONG_MIN, LONG_MAX, to_int.
  destruct (v <? - 2 ^ 63) eqn:E1; [apply Z.ltb_lt in E1; lia|].
  destruct (2 ^ 63 - 1 <? v) eqn:E2; [apply Z.ltb_lt in E2; lia|].
  rewrite Z.mod_small by lia. lia.
Qed.

(** An unsigned number at the head of the text is read as it stands. *)
Lemma scan_decimal_digits c ds rest :
  Forall (fun c => isdigit c = true) (c :: ds) -> stops rest ->
  scan_decimal ((c :: ds) ++ rest) = Some (clamp_long (decimal (c :: ds)), rest).
Proof.
  intros Hd Hr. unfold scan_decimal.
  pose proof Hd as Hd'. apply Forall_cons in Hd' as [Hc _].
  apply isdigit_plain in Hc as (Hs & Hm & Hp & _).
  change ((c :: ds) ++ rest) with (c :: (ds ++ rest)).
  simpl skip_space. rewrite Hs, Hm, Hp.
  change (c :: (ds ++ rest)) with ((c :: ds) ++ rest).
  by rewrite span_digits_app.
Qed.

(** Text that starts with neither white space, a sign nor a digit holds
    no number. *)
Lemma scan_decimal_none c rest :
  isspace c = false -> isdigit c = false ->
  c <> "-"%char -> c <> "+"%char ->
  scan_decimal (c :: rest) = None.
Proof.
  intros Hs Hd Hm Hp. unfold scan_decimal. simpl skip_space. rewrite Hs.
  apply Ascii.eqb_neq in Hm, Hp. rewrite Hm, Hp. simpl. by rewrite Hd.
Qed.

End Names.

(** ** Single options *)

Section SingleOptions.

Implicit Types (l : Locals) (w : World) (optarg : list ascii).

Ltac name_ok := apply no_NUL_bytes; reflexivity.

Ltac split_table H :=
  repeat (apply elem_of_cons in H as [H|H]; [injection H as -> ->|]);
  try (by apply elem_of_nil in H).

(** The entry of a table whose name the argument spells is the one found. *)
Lemma lookup_LANGUAGES optarg n g :
  (n, g) ∈ LANGUAGES -> c_str optarg = n ->
  lookup_name optarg LANGUAGES = Some g.
Proof.
  intros Hin Hc. unfold LANGUAGES in *. split_table Hin;
    repeat (rewrite lookup_name_skip by (first [name_ok | rewrite Hc; discriminate]));
    rewrite lookup_name_hit by (first [name_ok | done]); done.
Qed.

Lemma lookup_GRAPHICS optarg n g :
  (n, g) ∈ GRAPHICS -> c_str optarg = n ->
  lookup_name optarg GRAPHICS = Some g.
Proof.
  intros Hin Hc. unfold GRAPHICS in *. split_table Hin;
    repeat (rewrite lookup_name_skip by (first [name_ok | rewrite Hc; discriminate]));
    rewrite lookup_name_hit by (first [name_ok | done]); done.
Qed.

Lemma lookup_unknown {A} optarg (table : list (list ascii * A)) :
  Forall (fun e => NUL ∉ e.1) table ->
  (forall n g, (n, g) ∈ table -> c_str optarg <> n) ->
  lookup_name optarg table = None.
Proof.
  intros Hn. induction Hn as [|[n g] table Hng Hn IH]; intros Hno; [done|].
  rewrite lookup_name_skip; [| done |].
  - apply IH. intros n' g' Hin. apply (Hno n' g'). by apply list_elem_of_further.
  - apply (Hno n g). apply list_elem_of_here.
Qed.

Lemma LANGUAGES_names : Forall (fun e => NUL ∉ e.1) LANGUAGES.
Proof. unfold LANGUAGES. repeat (constructor; [simpl; name_ok|]). constructor. Qed.

Lemma GRAPHICS_names : Forall (fun e => NUL ∉ e.1) GRAPHICS.
Proof. unfold GRAPHICS. repeat (constructor; [simpl; name_ok|]). constructor. Qed.

End SingleOptions.

(** X1: [--language] changes nothing but the language.  An argument
    that spells one of the five codes, in lower case and in full,
    selects that language; any other argument is ignored without a
    message and the language stays as it was. *)
Theorem language_option optarg l w :
  exists l', handle_option (Opt_l optarg) l w = (Some l', w) /\
    with_lang (lang l) l' = l /\
    (forall n g, (n, g) ∈ LANGUAGES -> c_str optarg = n -> lang l' = g) /\
    ((forall n g, (n, g) ∈ LANGUAGES -> c_str optarg <> n) -> l' = l).
Proof.
  unfold handle_option. destruct (lookup_name optarg LANGUAGES) as [g0|] eqn:E.
  - exists (with_lang g0 l). split; [done|]. split; [by destruct l|]. split.
    + intros n g Hin Hc. rewrite (lookup_LANGUAGES _ _ _ Hin Hc) in E.
      by injection E as ->.
    + intros Hno. rewrite (lookup_unknown _ _ LANGUAGES_names Hno) in E. done.
  - exists l. split; [done|]. split; [by destruct l|]. split; [|done].
    intros n g Hin Hc. rewrite (lookup_LANGUAGES _ _ _ Hin Hc) in E. done.
Qed.

Lemma language_option_witness :
  exists l',
    handle_option (Opt_l (bytes "de")) (locals0 (env_of [] DT_3DO)) world0
    = (Some l', world0) /\
    lang l' = LANG_DE.
Proof.
  destruct (language_option (bytes "de") (locals0 (env_of [] DT_3DO)) world0)
    as (l' & H & _ & Hk & _).
  exists l'. split; [exact H|].
  apply (Hk (bytes "de")); [|reflexivity].
  unfold LANGUAGES. do 2 apply list_elem_of_further. apply list_elem_of_here.
Defined.

(** X2: a [--render] argument that is none of the three names is
    ignored: the locals and the world are as before, nothing is printed
    and the choice of the renderer is still the default one. *)
Theorem render_unknown_ignored optarg l w :
  (forall n g, (n, g) ∈ GRAPHICS -> c_str optarg <> n) ->
  handle_option (Opt_r optarg) l w = (Some l, w).
Proof.
  intros Hno. unfold handle_option.
  by rewrite (lookup_unknown _ _ GRAPHICS_names Hno).
Qed.

Lemma render_unknown_ignored_witness :
  handle_option (Opt_r (bytes "GL")) (locals0 (env_of [] DT_3DO)) world0
  = (Some (locals0 (env_of [] DT_3DO)), world0).
Proof.
  apply render_unknown_ignored.
  intros n g Hin.
  unfold GRAPHICS in Hin.
  repeat (apply elem_of_cons in Hin as [Hin|Hin]; [injection Hin as -> ->; discriminate|]).
  by apply elem_of_nil in Hin.
Defined.

(** X3: a [--render] argument that spells one of the three names makes
    that renderer the requested one and sets the GL flag of the display
    mode to match; the other locals and the world are untouched. *)
Theorem render_known optarg n g l w :
  (n, g) ∈ GRAPHICS -> c_str optarg = n ->
  exists l', handle_option (Opt_r optarg) l w = (Some l', w) /\
    requestedBackend l' = Some g /\
    opengl (dm l') = GraphicsType_eqb g GRAPHICS_GL /\
    l' = with_defaultGraphics false
           (with_dm (with_opengl (opengl (dm l')) (dm l))
              (with_graphicsType g l)).
Proof.
  intros Hin Hc. unfold handle_option. rewrite (lookup_GRAPHICS _ _ _ Hin Hc).
  eexists. split; [reflexivity|]. done.
Qed.

Lemma render_known_witness :
  exists l',
    handle_option (Opt_r (bytes "software")) (locals0 (env_of [] DT_3DO)) world0
    = (Some l', world0) /\
    requestedBackend l' = Some GRAPHICS_SOFTWARE /\ opengl (dm l') = false.
Proof.
  destruct (render_known (bytes "software") (bytes "software") GRAPHICS_SOFTWARE
              (locals0 (env_of [] DT_3DO)) world0) as (l' & H1 & H2 & H3 & _).
  - unfold GRAPHICS. apply list_elem_of_further, list_elem_of_here.
  - reflexivity.
  - exists l'. split; [exact H1|]. split; [exact H2 | exact H3].
Defined.

(** X4: a [--window] argument made of a number, an ['x'] and a number
    sets the width and the height to the two numbers, whatever text
    follows the second one, and leaves the mode and the GL flag alone.
    The numbers are not checked: zero is taken as it is. *)
Theorem window_sets_both c1 ds1 c2 ds2 rest d :
  Forall (fun c => isdigit c = true) (c1 :: ds1) ->
  Forall (fun c => isdigit c = true) (c2 :: ds2) ->
  stops rest ->
  decimal (c1 :: ds1) < 2 ^ 31 -> decimal (c2 :: ds2) < 2 ^ 31 ->
  scan_window ((c1 :: ds1) ++ "x"%char :: (c2 :: ds2) ++ rest) d
  = mkDisplayMode (mode d) (decimal (c1 :: ds1)) (decimal (c2 :: ds2)) (opengl d).
Proof.
  intros H1 H2 Hr Hb1 Hb2.
  pose proof (decimal_nonneg _ H1) as Hn1.
  pose proof (decimal_nonneg _ H2) as Hn2.
  unfold scan_window, WxH.
  cbn [sscanf].
  rewrite scan_decimal_digits by done.
  cbn [Ascii.eqb Bool.eqb NUL andb].
  rewrite scan_decimal_digits by done.
  rewrite !to_int_small by lia. done.
Qed.

Lemma window_sets_both_witness :
  scan_window (bytes "800x600 px") (mkDisplayMode FULLSCREEN 640 400 true)
  = mkDisplayMode FULLSCREEN 800 600 true.
Proof.
  apply (window_sets_both "8" (bytes "00") "6" (bytes "00") (bytes " px")).
  - repeat constructor.
  - repeat constructor.
  - reflexivity.
  - reflexivity.
  - reflexivity.
Defined.

(** X5: [--part] changes nothing but the start position.  A leading
    unsigned number below 2^31 is taken as it stands, whatever follows
    it; an argument that is empty or starts with something else than
    white space, a sign or a digit gives part 0, without a message. *)
Theorem part_option optarg l w :
  exists l', handle_option (Opt_p optarg) l w = (Some l', w) /\
    with_part (part l) l' = l /\
    (forall c ds rest,
       optarg = (c :: ds) ++ rest ->
       Forall (fun c => isdigit c = true) (c :: ds) -> stops rest ->
       decimal (c :: ds) < 2 ^ 31 -> part l' = decimal (c :: ds)) /\
    (forall c rest,
       optarg = c :: rest -> isspace c = false -> isdigit c = false ->
       c <> "-"%char -> c <> "+"%char -> part l' = 0) /\
    (optarg = [] -> part l' = 0).
Proof.
  exists (with_part (atoi optarg) l). split; [done|].
  split; [by destruct l|]. split; [|split].
  - intros c ds rest -> Hd Hr Hb.
    change (atoi ((c :: ds) ++ rest) = decimal (c :: ds)). unfold atoi.
    rewrite scan_decimal_digits by done.
    pose proof (decimal_nonneg _ Hd). apply to_int_small. lia.
  - intros c rest -> Hs Hd Hm Hp.
    change (atoi (c :: rest) = 0). unfold atoi.
    by rewrite scan_decimal_none.
  - by intros ->.
Qed.

Lemma part_option_witness :
  exists l',
    handle_option (Opt_p (bytes "16005")) (locals0 (env_of [] DT_3DO)) world0
    = (Some l', world0) /\
    part l' = 16005.
Proof.
  destruct (part_option (bytes "16005") (locals0 (env_of [] DT_3DO)) world0)
    as (l' & H & _ & Hk & _).
  exists l'. split; [exact H|].
  apply (Hk "1"%char (bytes "6005") []).
  - reflexivity.
  - repeat constructor.
  - exact I.
  - reflexivity.
Defined.

(** ** More on the scaler *)

(** X6: a scaler argument with an ['@'] overwrites the whole scaler:
    the result does not depend on the name and factor stored before,
    so nothing of an earlier, longer name shows through. *)
Theorem scaler_overwritten pre post s1 s2 :
  AT ∉ pre -> NUL ∉ pre ->
  length (name s1) = NAME_SIZE -> length (name s2) = NAME_SIZE ->
  parseScaler (pre ++ AT :: post) s1 = parseScaler (pre ++ AT :: post) s2.
Proof.
  intros Ha Hn H1 H2.
  pose proof (name_after_sep pre post s1 Ha Hn H1) as E1.
  pose proof (name_after_sep pre post s2 Ha Hn H2) as E2.
  rewrite parseScaler_sep in E1, E2 by done.
  rewrite !parseScaler_sep by done.
  cbn [name] in E1, E2. by rewrite E1, E2.
Qed.

Lemma scaler_overwritten_witness :
  parseScaler (bytes "hq" ++ AT :: bytes "3")
    (mkScaler (bytes "a-long-scaler-name-of-32-bytes!!") 7)
  = parseScaler (bytes "hq" ++ AT :: bytes "3") (scaler0 (replicate 32 "x"%char)).
Proof.
  assert (Hq : forall c, c <> "h"%char -> c <> "q"%char -> c ∉ bytes "hq").
  { intros c H1 H2. unfold bytes. simpl. rewrite !not_elem_of_cons.
    pose proof (not_elem_of_nil c). tauto. }
  apply scaler_overwritten.
  - apply Hq; discriminate.
  - apply Hq; discriminate.
  - reflexivity.
  - reflexivity.
Defined.

(** The name array keeps its size and holds a terminated string. *)
Lemma parseScaler_fits arg s :
  length (name s) = NAME_SIZE -> (length (c_str (name s)) <= 31)%nat ->
  length (name (parseScaler arg s)) = NAME_SIZE /\
  (length (c_str (name (parseScaler arg s))) <= 31)%nat.
Proof.
  intros Hl Hc. destruct (strchr arg AT) as [i|] eqn:E.
  - destruct (strchr_Some arg AT i ltac:(discriminate) E) as (post & Heq & Ha & Hn).
    rewrite Heq, name_after_sep by done.
    split.
    + rewrite !length_app, length_take, length_replicate. cbn [length].
      unfold NAME_SIZE. lia.
    + rewrite c_str_take_pad by done. rewrite length_take. lia.
  - unfold parseScaler. by rewrite E.
Qed.

(** X7: whatever [--scaler] arguments the command line has, the scaler
    name that reaches the engine sits in an array of 32 bytes and has at
    most 31 characters. *)
Theorem scaler_name_fits env w l w' :
  length (scaler_stack env) = NAME_SIZE ->
  parse_options env w = (Some l, w') ->
  length (name (scaler l)) = NAME_SIZE /\
  (length (c_str (name (scaler l))) <= 31)%nat.
Proof.
  intros Hs. unfold parse_options.
  set (P := fun (l : Locals) (_ : World) =>
              length (name (scaler l)) = NAME_SIZE /\
              (length (c_str (name (scaler l))) <= 31)%nat).
  intros H. refine (option_loop_inv P _ _ _ _ _ _ _ H).
  - intros o l0 w0 l1 w1 [H1 H2]. unfold P.
    destruct o; simpl; unfold bind, ret, emit, set_useEGA; simpl;
      repeat case_match; intros ?; simplify_eq; simpl; try done;
      by apply parseScaler_fits.
  - unfold P. destruct (_ && _); simpl.
    + rewrite length_insert. split; [done|]. destruct (scaler_stack env); simpl; lia.
    + rewrite length_insert. split; [done|]. destruct (scaler_stack env); simpl; lia.
Qed.

Lemma scaler_name_fits_witness :
  exists l,
    fst (parse_options
           (env_of [Opt_s (replicate 40 "a"%char ++ bytes "@2")] DT_3DO) world0)
    = Some l /\
    (length (c_str (name (scaler l))) <= 31)%nat.
Proof.
  eexists. split; [reflexivity|].
  eapply (scaler_name_fits
            (env_of [Opt_s (replicate 40 "a"%char ++ bytes "@2")] DT_3DO) world0).
  - reflexivity.
  - reflexivity.
Defined.

(** ** The option loop as a whole *)

Section WholeLoop.

Implicit Types (l : Locals) (w : World) (o : getopt_result)
  (opts pre post : list getopt_result).

(** Every option but the usage ones lets the loop go on. *)
Lemma handle_option_goes_on o l w :
  is_usage o = false -> exists l' w', handle_option o l w = (Some l', w').
Proof.
  destruct o; simpl; try done; intros _;
    unfold bind, ret, set_useEGA; repeat case_match; eauto.
Qed.

Lemma handle_option_usage o l w :
  is_usage o = true ->
  handle_option o l w
  = (None, mkWorld (Graphics_is1991 w) (Graphics_use565 w) (Video_useEGA w)
             (trace w ++ [EvPrintUsage])).
Proof. by destruct o. Qed.

Lemma option_loop_app pre post l w :
  option_loop (pre ++ post) l w
  = match option_loop pre l w with
    | (Some l', w') => option_loop post l' w'
    | (None, w') => (None, w')
    end.
Proof.
  revert l w. induction pre as [|o pre IH]; intros l w; simpl; [done|].
  unfold bind. destruct (handle_option o l w) as [[l1|] w1]; [apply IH | done].
Qed.

Lemma option_loop_goes_on opts l w :
  Forall (fun o => is_usage o = false) opts ->
  exists l' w', option_loop opts l w = (Some l', w').
Proof.
  intros H. revert l w. induction H as [|o opts Ho _ IH]; intros l w; simpl.
  - unfold ret. eauto.
  - unfold bind.
    destruct (handle_option_goes_on o l w Ho) as (l1 & w1 & ->). apply IH.
Qed.

(** An invariant of the turns for the options that occur. *)
Lemma option_loop_inv_on (Q : getopt_result -> Prop) (P : Locals -> World -> Prop) :
  (forall o l w l' w',
     Q o -> P l w -> handle_option o l w = (Some l', w') -> P l' w') ->
  forall opts l w l' w',
    Forall Q opts -> P l w -> option_loop opts l w = (Some l', w') -> P l' w'.
Proof.
  intros Hstep opts. induction opts as [|o rest IH]; intros l w l' w' HQ HP H.
  - simpl in H. unfold ret in H. by simplify_eq.
  - apply Forall_cons in HQ as [Ho Hrest].
    simpl in H. unfold bind in H.
    destruct (handle_option o l w) as [[l1|] w1] eqn:E.
    + eapply IH; [exact Hrest | | exact H]. eapply Hstep; eauto.
    + unfold ret in H. simplify_eq.
Qed.

Lemma handle_option_ega o l w l' w' :
  handle_option o l w = (Some l', w') ->
  Video_useEGA w' = Video_useEGA w || is_Opt_e o.
Proof.
  destruct o; simpl; unfold bind, ret, emit, set_useEGA; simpl;
    repeat case_match; intros ?; simplify_eq; simpl;
    by rewrite ?orb_false_r, ?orb_true_r.
Qed.

Lemma option_loop_ega opts l w l' w' :
  option_loop opts l w = (Some l', w') ->
  Video_useEGA w' = Video_useEGA w || existsb is_Opt_e opts.
Proof.
  revert l w. induction opts as [|o opts IH]; intros l w H; simpl in *.
  - unfold ret in H. simplify_eq. by rewrite orb_false_r.
  - unfold bind in H.
    destruct (handle_option o l w) as [[l1|] w1] eqn:E; [|by unfold ret in H].
    rewrite (IH _ _ H), (handle_option_ega _ _ _ _ _ E). by rewrite orb_assoc.
Qed.

End WholeLoop.

(** X8: at the first [--help] or unknown option, [main] prints the
    usage and returns 0, and that is all it does: the engine, the
    renderer and the stub are never built, the two renderer flags are
    not written, and the EGA flag is set only by an [--ega-palette]
    that comes before that option.  The options after it are not
    looked at. *)
Theorem usage_stops_main env w pre o post :
  options env = pre ++ o :: post ->
  is_usage o = true ->
  Forall (fun o => is_usage o = false) pre ->
  main env w
  = (0, mkWorld (Graphics_is1991 w) (Graphics_use565 w)
          (Video_useEGA w || existsb is_Opt_e pre)
          (trace w ++ [EvPrintUsage])).
Proof.
  intros Hopts Ho Hpre.
  assert (Hp : parse_options env w
               = (None, mkWorld (Graphics_is1991 w) (Graphics_use565 w)
                          (Video_useEGA w || existsb is_Opt_e pre)
                          (trace w ++ [EvPrintUsage]))).
  { unfold parse_options. rewrite Hopts, option_loop_app.
    set (l1 := if _ && _ then _ else _).
    destruct (option_loop_goes_on pre l1 w Hpre) as (l2 & w2 & E). rewrite E.
    destruct (option_loop_world _ _ _ _ _ E) as (H1 & H2 & H3).
    pose proof (option_loop_ega _ _ _ _ _ E) as H4.
    simpl. unfold bind. rewrite handle_option_usage by done.
    by rewrite H1, H2, H3, H4. }
  unfold main. unfold bind at 1. by rewrite (startup_usage _ _ _ Hp).
Qed.

Lemma usage_stops_main_witness :
  main (env_of [Opt_f; Opt_other; Opt_e; Opt_r (bytes "gl")] DT_3DO) world0
  = (0, mkWorld false false false [EvPrintUsage]).
Proof.
  apply (usage_stops_main
           (env_of [Opt_f; Opt_other; Opt_e; Opt_r (bytes "gl")] DT_3DO) world0
           [Opt_f] Opt_other [Opt_e; Opt_r (bytes "gl")] eq_refl eq_refl).
  repeat constructor.
Defined.



(** X10: after the option loop the EGA flag is set when it was set
    before or the command line has [--ega-palette]; no option clears
    it. *)
Theorem ega_flag_after_options env w l w' :
  parse_options env w = (Some l, w') ->
  Video_useEGA w' = Video_useEGA w || existsb is_Opt_e (options env).
Proof. unfold parse_options. apply option_loop_ega. Qed.

Lemma ega_flag_after_options_witness :
  Video_useEGA (snd (parse_options (env_of [Opt_f; Opt_e] DT_3DO) world0)) = true.
Proof.
  exact (ega_flag_after_options (env_of [Opt_f; Opt_e] DT_3DO) world0 _ _ eq_refl).
Defined.

Section LastOption.

Implicit Types (l : Locals) (w : World) (o : getopt_result)
  (opts pre post : list getopt_result).

Ltac run_option :=
  simpl; unfold bind, ret, emit, set_useEGA; simpl;
  repeat case_match; intros ?; simplify_eq; simpl.

(** The options that leave a field alone leave it alone in a loop. *)
Lemma option_loop_keeps {A} (f : Locals -> A) (touches : getopt_result -> bool) :
  (forall o l w l' w',
     touches o = false -> handle_option o l w = (Some l', w') -> f l' = f l) ->
  forall opts l w l' w',
    Forall (fun o => touches o = false) opts ->
    option_loop opts l w = (Some l', w') -> f l' = f l.
Proof.
  intros Hstep opts l w l' w' Hall H.
  refine (option_loop_inv_on (fun o => touches o = false)
            (fun l1 _ => f l1 = f l) _ _ _ _ _ _ Hall _ H); [|done].
  intros o l0 w0 l1 w1 Ho HP Hh. rewrite <- HP. eapply Hstep; eauto.
Qed.

Lemma option_loop_split pre o post l w l' w' :
  option_loop (pre ++ o :: post) l w = (Some l', w') ->
  exists l1 w1 l2 w2,
    option_loop pre l w = (Some l1, w1) /\
    handle_option o l1 w1 = (Some l2, w2) /\
    option_loop post l2 w2 = (Some l', w').
Proof.
  rewrite option_loop_app.
  destruct (option_loop pre l w) as [[l1|] w1]; [|done].
  simpl. unfold bind.
  destruct (handle_option o l1 w1) as [[l2|] w2] eqn:E; [|done].
  intros H. by exists l1, w1, l2, w2.
Qed.

Lemma dataPath_kept o l w l' w' :
  is_Opt_d o = false -> handle_option o l w = (Some l', w') ->
  dataPath l' = dataPath l.
Proof. destruct o; try done; intros _; by run_option. Qed.

Lemma mode_kept o l w l' w' :
  is_mode_flag o = false -> handle_option o l w = (Some l', w') ->
  mode (dm l') = mode (dm l).
Proof.
  destruct o; try done; intros _; run_option; try done.
  unfold scan_window. by repeat case_match.
Qed.

Lemma geometry_kept o l w l' w' :
  (forall a, o <> Opt_w a) -> handle_option o l w = (Some l', w') ->
  width (dm l') = width (dm l) /\ height (dm l') = height (dm l).
Proof.
  intros Hw. destruct o; try (by run_option).
  by destruct (Hw optarg).
Qed.

End LastOption.

(** X11: the data path handed to the engine is the argument of the last
    [--datapath].  Without that option it is the lone argument of the
    command line when that names a directory, and absent otherwise. *)
Theorem datapath_last_wins env w l w' :
  parse_options env w = (Some l, w') ->
  (Forall (fun o => is_Opt_d o = false) (options env) ->
   dataPath l = dataPath0 env) /\
  (forall pre p post,
     options env = pre ++ Opt_d p :: post ->
     Forall (fun o => is_Opt_d o = false) post ->
     dataPath l = Some p).
Proof.
  unfold parse_options. intros H. split.
  - intros Hall.
    rewrite (option_loop_keeps dataPath is_Opt_d dataPath_kept _ _ _ _ _ Hall H).
    unfold dataPath0. by destruct (_ && _).
  - intros pre p post Hopts Hall. rewrite Hopts in H.
    apply option_loop_split in H as (l1 & w1 & l2 & w2 & _ & Hd & Hpost).
    rewrite (option_loop_keeps dataPath is_Opt_d dataPath_kept _ _ _ _ _ Hall Hpost).
    simpl in Hd. unfold ret in Hd. by simplify_eq.
Qed.

Lemma datapath_last_wins_witness :
  exists l,
    fst (parse_options
           (mkEnv 2 (bytes "data") true
              [Opt_d (bytes "a"); Opt_f; Opt_d (bytes "b"); Opt_e]
              [] true DT_3DO 0) world0) = Some l /\
    dataPath l = Some (bytes "b").
Proof.
  eexists. split; [reflexivity|].
  eapply (proj2 (datapath_last_wins
      (mkEnv 2 (bytes "data") true
         [Opt_d (bytes "a"); Opt_f; Opt_d (bytes "b"); Opt_e]
         [] true DT_3DO 0) world0 _ _ eq_refl)
      [Opt_d (bytes "a"); Opt_f] (bytes "b") [Opt_e] eq_refl).
  repeat constructor.
Defined.

(** X12: the display stays windowed unless the command line has
    [--fullscreen] or [--fullscreen-ar], and the last of those two
    decides; the width and the height are kept by both, so a geometry
    given before or after is still recorded. *)
Theorem mode_last_flag_wins env w l w' :
  parse_options env w = (Some l, w') ->
  (Forall (fun o => is_mode_flag o = false) (options env) ->
   mode (dm l) = WINDOWED) /\
  (forall pre o post,
     options env = pre ++ o :: post ->
     is_mode_flag o = true ->
     Forall (fun o => is_mode_flag o = false) post ->
     mode (dm l) = match o with Opt_f => FULLSCREEN | _ => FULLSCREEN_AR end) /\
  (Forall (fun o => forall a, o <> Opt_w a) (options env) ->
   width (dm l) = DEFAULT_WINDOW_W /\ height (dm l) = DEFAULT_WINDOW_H).
Proof.
  unfold parse_options. intros H. split; [|split].
  - intros Hall.
    rewrite (option_loop_keeps (fun l => mode (dm l)) is_mode_flag mode_kept
               _ _ _ _ _ Hall H).
    by destruct (_ && _).
  - intros pre o post Hopts Ho Hall. rewrite Hopts in H.
    apply option_loop_split in H as (l1 & w1 & l2 & w2 & _ & Hd & Hpost).
    rewrite (option_loop_keeps (fun l => mode (dm l)) is_mode_flag mode_kept
               _ _ _ _ _ Hall Hpost).
    destruct o; try done; simpl in Hd; unfold ret in Hd; by simplify_eq.
  - intros Hall.
    refine (option_loop_inv_on (fun o => forall a, o <> Opt_w a)
              (fun l1 _ => width (dm l1) = DEFAULT_WINDOW_W /\
                           height (dm l1) = DEFAULT_WINDOW_H)
              _ _ _ _ _ _ Hall _ H).
    + intros o l0 w0 l1 w1 Ho [H1 H2] Hh.
      destruct (geometry_kept _ _ _ _ _ Ho Hh) as [G1 G2]. by rewrite G1, G2.
    + by destruct (_ && _).
Qed.

Lemma mode_last_flag_wins_witness :
  exists l,
    fst (parse_options
           (env_of [Opt_a; Opt_w (bytes "800x600"); Opt_f; Opt_e] DT_3DO) world0)
    = Some l /\
    mode (dm l) = FULLSCREEN.
Proof.
  eexists. split; [reflexivity|].
  eapply (proj1 (proj2 (mode_last_flag_wins
      (env_of [Opt_a; Opt_w (bytes "800x600"); Opt_f; Opt_e] DT_3DO) world0
      _ _ eq_refl))
      [Opt_a; Opt_w (bytes "800x600")] Opt_f [Opt_e] eq_refl eq_refl).
  repeat constructor.
Defined.

Section Requests.

Implicit Types (l : Locals) (w : World) (o : getopt_result).

Lemma request_kept o l w l' w' :
  ~ names_renderer o -> handle_option o l w = (Some l', w') ->
  graphicsType l' = graphicsType l /\
  defaultGraphics l' = defaultGraphics l /\
  opengl (dm l') = opengl (dm l).
Proof.
  intros Hn. destruct o;
    try (simpl; unfold bind, ret, emit, set_useEGA; simpl;
         repeat case_match; intros ?; by simplify_eq).
  - unfold handle_option. rewrite (lookup_unknown _ _ GRAPHICS_names).
    + unfold ret. intros ?. by simplify_eq.
    + intros n g Hin Hc. apply Hn. simpl. eauto.
  - simpl. unfold ret. intros ?. simplify_eq. simpl.
    unfold scan_window. by repeat case_match.
Qed.

End Requests.

(** X13: the renderer the command line requests is the one named by
    its last [--render] with a name of the table, and the GL flag of the
    display mode follows it; with no such option nothing is requested
    and the flag stays set, as [main] initialised it. *)
Theorem render_last_wins env w l w' :
  parse_options env w = (Some l, w') ->
  (Forall (fun o => ~ names_renderer o) (options env) ->
   requestedBackend l = None /\ opengl (dm l) = true) /\
  (forall pre a n g post,
     options env = pre ++ Opt_r a :: post ->
     (n, g) ∈ GRAPHICS -> c_str a = n ->
     Forall (fun o => ~ names_renderer o) post ->
     requestedBackend l = Some g /\
     opengl (dm l) = GraphicsType_eqb g GRAPHICS_GL).
Proof.
  unfold parse_options. intros H.
  assert (Hkeep : forall opts l1 w1 l2 w2,
            Forall (fun o => ~ names_renderer o) opts ->
            option_loop opts l1 w1 = (Some l2, w2) ->
            requestedBackend l2 = requestedBackend l1 /\
            opengl (dm l2) = opengl (dm l1)).
  { intros opts l1 w1 l2 w2 Hall Hl.
    refine (option_loop_inv_on (fun o => ~ names_renderer o)
              (fun l3 _ => requestedBackend l3 = requestedBackend l1 /\
                           opengl (dm l3) = opengl (dm l1))
              _ _ _ _ _ _ Hall _ Hl); [|done].
    intros o l3 w3 l4 w4 Ho [H1 H2] Hh.
    destruct (request_kept _ _ _ _ _ Ho Hh) as (G1 & G2 & G3).
    unfold requestedBackend in *. by rewrite G1, G2, G3. }
  split.
  - intros Hall. destruct (Hkeep _ _ _ _ _ Hall H) as [-> ->].
    by destruct (_ && _).
  - intros pre a n g post Hopts Hin Hc Hall. rewrite Hopts in H.
    apply option_loop_split in H as (l1 & w1 & l2 & w2 & _ & Hd & Hpost).
    destruct (Hkeep _ _ _ _ _ Hall Hpost) as [-> ->].
    unfold handle_option in Hd. rewrite (lookup_GRAPHICS _ _ _ Hin Hc) in Hd.
    unfold ret in Hd. by simplify_eq.
Qed.

Lemma render_last_wins_witness :
  exists l,
    fst (parse_options
           (env_of [Opt_r (bytes "gl"); Opt_r (bytes "software"); Opt_r (bytes "GL")]
              DT_3DO) world0) = Some l /\
    requestedBackend l = Some GRAPHICS_SOFTWARE /\ opengl (dm l) = false.
Proof.
  eexists. split; [reflexivity|].
  eapply (proj2 (render_last_wins
      (env_of [Opt_r (bytes "gl"); Opt_r (bytes "software"); Opt_r (bytes "GL")]
         DT_3DO) world0 _ _ eq_refl)
      [Opt_r (bytes "gl")] (bytes "software") (bytes "software")
      GRAPHICS_SOFTWARE [Opt_r (bytes "GL")] eq_refl).
  - unfold GRAPHICS. apply list_elem_of_further, list_elem_of_here.
  - reflexivity.
  - constructor; [|constructor].
    intros (n & g & Hin & Hc). unfold GRAPHICS in Hin.
    repeat (apply elem_of_cons in Hin as [Hin|Hin];
            [injection Hin as -> _; discriminate Hc|]).
    by apply elem_of_nil in Hin.
Defined.

(** ** The whole run *)

Section WholeRun.

Implicit Types (l : Locals) (w : World) (env : Env).

(** [resolve] writes the renderer and nothing else of the locals but
    the GL flag. *)
Lemma resolve_keeps dt l w :
  let l' := fst (resolve dt l w) in
  dataPath l' = dataPath l /\ part l' = part l /\ lang l' = lang l /\
  scaler l' = scaler l /\ mode (dm l') = mode (dm l) /\
  width (dm l') = width (dm l) /\ height (dm l') = height (dm l).
Proof.
  unfold resolve, bind, ret, set_use565.
  destruct (defaultGraphics l); simpl; by destruct (negb _ && _).
Qed.

Lemma resolve_is1991 dt l w :
  Graphics_is1991 (snd (resolve dt l w)) = Graphics_is1991 w.
Proof.
  unfold resolve, bind, ret, set_use565.
  destruct (defaultGraphics l); simpl; by destruct (negb _ && _).
Qed.

(** What [play] leaves behind. *)
Lemma play_world env l w :
  snd (play env l w)
  = mkWorld
      (Graphics_is1991 w || GraphicsType_eqb (graphicsType l) GRAPHICS_ORIGINAL)
      (Graphics_use565 w) (Video_useEGA w)
      (trace w ++ create_calls (USE_GL env) (graphicsType l)
         ++ [EvSystemStub_SDL_create; EvStubInit (lang l) (dm l);
             EvSetSystemStub (create_result (USE_GL env) (graphicsType l));
             EvSetup (lang l) (graphicsType l) (c_str (name (scaler l)))
               (factor (scaler l))]
         ++ replicate (frames env) EvRun
         ++ [EvFinish; EvDeleteEngine; EvStubFini; EvDeleteStub]).
Proof.
  unfold play, teardown, createGraphics.
  destruct (graphicsType l), (USE_GL env);
    unfold bind, ret, emit, set_is1991; simpl;
    rewrite run_loop_trace; simpl;
    rewrite <- ?app_assoc; simpl; rewrite ?orb_false_r, ?orb_true_r;
    reflexivity.
Qed.

Lemma main_started env w l w1 :
  startup env w = (Some l, w1) -> main env w = (0, snd (play env l w1)).
Proof.
  intros H. unfold main. unfold bind at 1. rewrite H.
  unfold bind, ret. by destruct (play env l w1).
Qed.

(** A run that starts: the locals after the options, the resolved
    ones, and the world in between. *)
Lemma startup_inv env w l :
  fst (startup env w) = Some l ->
  exists l0 w1 w2,
    parse_options env w = (Some l0, w1) /\
    w2 = snd ((emit EvSetDebugMask ;;
               emit (EvNewEngine (dataPath l0) (part l0))) w1) /\
    startup env w = (Some l, snd (resolve (dataType env) l0 w2)) /\
    l = fst (resolve (dataType env) l0 w2).
Proof.
  destruct (parse_options env w) as [[l0|] w1] eqn:E.
  - rewrite (startup_parsed _ _ _ _ E).
    set (w2 := snd ((emit EvSetDebugMask ;;
                     emit (EvNewEngine (dataPath l0) (part l0))) w1)).
    destruct (resolve (dataType env) l0 w2) as [l' w3] eqn:R.
    intros Hl. cbn [fst] in Hl. injection Hl as ->.
    exists l0, w1, w2. by rewrite R.
  - rewrite (startup_usage _ _ _ E). done.
Qed.

End WholeRun.

(** X14: with data other than the 3DO's, an explicit request for a
    renderer is honoured as it is, and the 565 flag is not written. *)
Theorem explicit_request_honoured env w l g :
  fst (parse_options env w) = Some l ->
  requestedBackend l = Some g ->
  dataType env <> DT_3DO ->
  exists l', fst (startup env w) = Some l' /\
    graphicsType l' = g /\
    Graphics_use565 (snd (startup env w)) = Graphics_use565 w.
Proof.
  destruct (parse_options env w) as [[l0|] w1] eqn:E; simpl; [|done].
  intros ? Hreq Hdt. simplify_eq.
  unfold requestedBackend in Hreq.
  destruct (defaultGraphics l) eqn:Hd; [done|]. simplify_eq.
  destruct (parse_options_world _ _ _ _ E) as (_ & H565 & _).
  rewrite (startup_parsed _ _ _ _ E).
  set (w2 := snd ((emit EvSetDebugMask ;; emit (EvNewEngine (dataPath l) (part l))) w1)).
  pose proof (resolve_graphicsType (dataType env) l w2) as Hg.
  pose proof (resolve_use565 (dataType env) l w2) as Hu.
  destruct (resolve _ _ _) as [l' w3]. simpl in Hg, Hu.
  exists l'. split; [done|]. simpl.
  rewrite Hg, Hu, Hd. subst w2. simpl.
  assert (is_DT_3DO (dataType env) = false) as -> by (by destruct (dataType env)).
  by rewrite andb_false_r.
Qed.

Lemma explicit_request_honoured_witness :
  exists l',
    fst (startup (env_of [Opt_r (bytes "software")] (DT_LEGACY 0)) world0) = Some l' /\
    graphicsType l' = GRAPHICS_SOFTWARE.
Proof.
  destruct (explicit_request_honoured
              (env_of [Opt_r (bytes "software")] (DT_LEGACY 0)) world0 _
              GRAPHICS_SOFTWARE eq_refl eq_refl ltac:(discriminate))
    as (l' & H1 & H2 & _).
  exists l'. split; [exact H1 | exact H2].
Defined.

(** X15: the software renderer is resolved only when the command line
    asks for it by name, or when it asks for the original renderer
    with the data of the 3DO; the defaults never pick it. *)
Theorem software_only_on_request env w l0 l :
  fst (parse_options env w) = Some l0 ->
  fst (startup env w) = Some l ->
  graphicsType l = GRAPHICS_SOFTWARE ->
  requestedBackend l0 = Some GRAPHICS_SOFTWARE \/
  (dataType env = DT_3DO /\ requestedBackend l0 = Some GRAPHICS_ORIGINAL).
Proof.
  intros Hp Hs Hg.
  destruct (startup_inv _ _ _ Hs) as (l1 & w1 & w2 & E & _ & _ & ->).
  rewrite E in Hp. simpl in Hp. simplify_eq.
  rewrite resolve_graphicsType in Hg. unfold requestedBackend.
  destruct (defaultGraphics l0), (dataType env), (graphicsType l0);
    simpl in Hg; try discriminate Hg; auto.
Qed.

Lemma software_only_on_request_witness :
  exists l0,
    fst (parse_options (env_of [Opt_r (bytes "original")] DT_3DO) world0)
    = Some l0 /\
    (requestedBackend l0 = Some GRAPHICS_SOFTWARE \/
     (DT_3DO = DT_3DO /\ requestedBackend l0 = Some GRAPHICS_ORIGINAL)).
Proof.
  eexists. split; [reflexivity|].
  eapply (software_only_on_request
            (env_of [Opt_r (bytes "original")] DT_3DO) world0); reflexivity.
Defined.

(** X16: what a run that starts does to the two renderer flags.  The
    1991 flag is set exactly when the resolved renderer is the original
    one, the 565 flag exactly when the data are the 3DO's and the
    resolved renderer is the software one; neither flag is ever
    cleared, and the original renderer is never resolved for the 3DO. *)
Theorem renderer_flags_after_main env w l :
  fst (startup env w) = Some l ->
  Graphics_is1991 (snd (main env w))
  = Graphics_is1991 w || GraphicsType_eqb (graphicsType l) GRAPHICS_ORIGINAL /\
  Graphics_use565 (snd (main env w))
  = Graphics_use565 w ||
    (is_DT_3DO (dataType env) && GraphicsType_eqb (graphicsType l) GRAPHICS_SOFTWARE) /\
  (dataType env = DT_3DO -> graphicsType l <> GRAPHICS_ORIGINAL).
Proof.
  intros Hs.
  destruct (startup_inv _ _ _ Hs) as (l0 & w1 & w2 & E & Hw2 & Hst & Hl).
  rewrite (main_started _ _ _ _ Hst), play_world. simpl.
  destruct (parse_options_world _ _ _ _ E) as (H1991 & H565 & _).
  rewrite resolve_is1991, resolve_use565. subst w2. simpl.
  rewrite H1991, H565.
  pose proof (resolve_graphicsType (dataType env) l0
    (snd ((emit EvSetDebugMask ;; emit (EvNewEngine (dataPath l0) (part l0))) w1)))
    as Hg.
  rewrite <- Hl in Hg. rewrite Hg. clear Hg Hl Hst Hs.
  split; [done|].
  destruct (defaultGraphics l0), (dataType env), (graphicsType l0),
    (Graphics_use565 w); simpl; split; try done.
Qed.

Lemma renderer_flags_after_main_witness :
  Graphics_use565
    (snd (main (env_of [Opt_r (bytes "original")] DT_3DO) world0)) = true /\
  Graphics_is1991
    (snd (main (env_of [Opt_r (bytes "original")] DT_3DO) world0)) = false.
Proof.
  destruct (renderer_flags_after_main
              (env_of [Opt_r (bytes "original")] DT_3DO) world0 _ eq_refl)
    as (H1 & H2 & _).
  split; [exact H2 | exact H1].
Defined.

(** X17: the calls of a run that starts, in order: the debug mask and
    the engine, the renderer for the resolved type, the stub and its
    [init] with the resolved display mode, the wiring of the engine
    with whatever [createGraphics] returned (nothing, for GL in a build
    without it), [setup] with the resolved type and the scaler, one
    [run] per frame, and the teardown. *)
Theorem run_call_order env w l :
  fst (startup env w) = Some l ->
  trace (snd (main env w))
  = trace w
    ++ [EvSetDebugMask; EvNewEngine (dataPath l) (part l)]
    ++ create_calls (USE_GL env) (graphicsType l)
    ++ [EvSystemStub_SDL_create; EvStubInit (lang l) (dm l);
        EvSetSystemStub (create_result (USE_GL env) (graphicsType l));
        EvSetup (lang l) (graphicsType l) (c_str (name (scaler l)))
          (factor (scaler l))]
    ++ replicate (frames env) EvRun
    ++ [EvFinish; EvDeleteEngine; EvStubFini; EvDeleteStub].
Proof.
  intros Hs.
  destruct (startup_inv _ _ _ Hs) as (l0 & w1 & w2 & E & Hw2 & Hst & Hl).
  rewrite (main_started _ _ _ _ Hst), play_world. simpl.
  destruct (parse_options_world _ _ _ _ E) as (_ & _ & Htr).
  rewrite resolve_trace. subst w2. simpl. rewrite Htr.
  destruct (resolve_keeps (dataType env) l0
    (snd ((emit EvSetDebugMask ;; emit (EvNewEngine (dataPath l0) (part l0))) w1)))
    as (Hd & Hp & _).
  rewrite <- Hl in Hd, Hp. rewrite Hd, Hp.
  by rewrite <- !app_assoc.
Qed.

Lemma run_call_order_witness :
  trace (snd (main (mkEnv 1 [] false [Opt_r (bytes "gl")] [] false (DT_LEGACY 0) 1)
                world0))
  = [EvSetDebugMask; EvNewEngine None 16001; EvDebug "Using GL graphics";
     EvSystemStub_SDL_create;
     EvStubInit LANG_FR (mkDisplayMode WINDOWED 640 400 true);
     EvSetSystemStub None; EvSetup LANG_FR GRAPHICS_GL [] 1; EvRun;
     EvFinish; EvDeleteEngine; EvStubFini; EvDeleteStub].
Proof.
  exact (run_call_order
           (mkEnv 1 [] false [Opt_r (bytes "gl")] [] false (DT_LEGACY 0) 1)
           world0 _ eq_refl).
Defined.
